(** * The LSST flat-field builder of imSim ([imsim/flat.py])

    A shallow embedding of [LSST_FlatBuilder]: its [setup], [buildImage],
    [addNoise] and [getNObj] methods, together with the small part of the
    GalSim interface they rely on (integer bounds, images as row-major
    arrays, sub-image views).

    Conventions.
    - Python [int] is [Z]; [//] is [Z.div] (both round towards minus
      infinity) and raises on a zero divisor, which the model reports as
      [ZeroDivisionError].
    - Python/NumPy floating-point numbers are idealised as exact rationals
      [Q]: there is no rounding, no infinity and no NaN in the model.  A
      NumPy division by zero (which yields inf or nan and carries on) has
      no counterpart; [Q]'s division returns 0 there.
    - Mutable objects (the output image, the random stream, the sensor, the
      logger) live in an explicit state threaded through a state-and-error
      monad; an exception leaves the state as it was when it was raised.
    - GalSim's sensor, noise routine, random deviates, wavelength sampler
      and coordinate mapping are parameters of the model ([Ext]), and so
      are the configuration readers [GetAllParams] and [BuildSED] of
      [setup].  Bounds, images and sub-images follow GalSim's [BoundsI] and
      [Image] classes, including the exceptions they raise. *)

From Stdlib Require Import ZArith QArith Qround Qabs Lia Lqa List.
From stdpp Require Import gmap strings list.

Set Warnings "-register-all".
Set Default Proof Using "Type".

Local Open Scope Z_scope.

(** ** Integer bounds ([galsim.BoundsI]) *)

Record BoundsI : Type := mkBoundsI { xmin : Z; xmax : Z; ymin : Z; ymax : Z }.

Definition isDefined (b : BoundsI) : bool :=
  (xmin b <=? xmax b) && (ymin b <=? ymax b).

(** [b.withBorder(d)]: the bounds grown by [d] on each of the four sides. *)
Definition withBorder (b : BoundsI) (d : Z) : BoundsI :=
  mkBoundsI (xmin b - d) (xmax b + d) (ymin b - d) (ymax b + d).

(** [b.area()]: the number of pixels, 0 for undefined bounds. *)
Definition area (b : BoundsI) : Z :=
  if isDefined b then (xmax b - xmin b + 1) * (ymax b - ymin b + 1) else 0.

(** [b.includes(x, y)] *)
Definition includes_pos (b : BoundsI) (x y : Z) : bool :=
  isDefined b && (xmin b <=? x) && (x <=? xmax b) && (ymin b <=? y) && (y <=? ymax b).

(** [b.includes(c)] for bounds [c] *)
Definition includes (b c : BoundsI) : bool :=
  isDefined b && isDefined c &&
  (xmin b <=? xmin c) && (xmax c <=? xmax b) &&
  (ymin b <=? ymin c) && (ymax c <=? ymax b).

(** [b.numpyShape()]: (rows, columns) of the array of an image on [b]. *)
Definition numpyShape (b : BoundsI) : nat * nat :=
  if isDefined b
  then (Z.to_nat (ymax b - ymin b + 1), Z.to_nat (xmax b - xmin b + 1))
  else (0%nat, 0%nat).

(** ** The section grid of [addNoise] (flat.py, lines 138-150) *)

(** Python's [range(n)] for an integer [n] (empty when [n <= 0]). *)
Definition range (n : Z) : list Z := Z.of_nat <$> seq 0 (Z.to_nat n).

(** Column [i] of the grid: [xmin = i*dx + 1], [xmax = (i+1)*dx], and the
    last column is stretched to [ncol]. *)
Definition col_min (dx i : Z) : Z := i * dx + 1.
Definition col_max (ncol nx dx i : Z) : Z :=
  if i =? nx - 1 then ncol else (i + 1) * dx.

(** The un-expanded bounds of section [(i, j)] for given steps [dx], [dy];
    rows are cut the same way as columns, with [dy] and [nrow]. *)
Definition sec_bounds_step (ncol nrow nx ny dx dy i j : Z) : BoundsI :=
  mkBoundsI (col_min dx i) (col_max ncol nx dx i)
            (col_min dy j) (col_max nrow ny dy j).

Definition sec_bounds (ncol nrow nx ny i j : Z) : BoundsI :=
  sec_bounds_step ncol nrow nx ny (ncol / nx) (nrow / ny) i j.

(** All sections, in the order the two nested loops visit them. *)
Definition grid (nx ny : Z) : list (Z * Z) :=
  i ← range nx; j ← range ny; [(i, j)].

Definition sections (ncol nrow nx ny : Z) : list BoundsI :=
  (fun ij => sec_bounds ncol nrow nx ny ij.1 ij.2) <$> grid nx ny.

(** ** Exceptions, results, and the state-and-error monad *)

Inductive exn : Type :=
  | ZeroDivisionError
  | ValueError
  | TypeError
  | KeyError (key : string)
  | RuntimeError (msg : string)
  | GalSimConfigError
  | GalSimBoundsError
  | GalSimUndefinedBoundsError
  | GalSimIncompatibleValuesError.

Inductive result (A : Type) : Type :=
  | Ok (a : A)
  | Raise (e : exn).
Arguments Ok {A} a.
Arguments Raise {A} e.

Global Instance result_ret : MRet result := fun A a => Ok a.
Global Instance result_bind : MBind result := fun A B f r =>
  match r with
  | Ok a => f a
  | Raise e => Raise e
  end.

(** A computation on a state [S]: it returns the state it stopped in, and
    either a value or the exception raised. *)
Definition M (S A : Type) : Type := S -> S * result A.

Global Instance M_ret {S} : MRet (M S) := fun A a s => (s, Ok a).
Global Instance M_bind {S} : MBind (M S) := fun A B f m s =>
  match m s with
  | (s', Ok a) => f a s'
  | (s', Raise e) => (s', Raise e)
  end.

Definition lift {S A} (r : result A) : M S A := fun s => (s, r).
Definition get {S} : M S S := fun s => (s, Ok s).
Definition modify {S} (f : S -> S) : M S unit := fun s => (f s, Ok tt).

(** [for x in xs: body(x)] *)
Fixpoint for_ {S A} (xs : list A) (body : A -> M S unit) : M S unit :=
  match xs with
  | [] => mret tt
  | x :: xs' => body x ;; for_ xs' body
  end.

(** A loop that updates a local variable [b]. *)
Fixpoint for_acc {S A B} (xs : list A) (body : B -> A -> M S B) (b : B) : M S B :=
  match xs with
  | [] => mret b
  | x :: xs' => b' ← body b x; for_acc xs' body b'
  end.

(** Python float division [a / b]. *)
Definition pydiv (a b : Q) : result Q :=
  if Qeq_bool b 0 then Raise ZeroDivisionError else Ok (a / b)%Q.

(** Python integer division [a // b]. *)
Definition floordiv (a b : Z) : result Z :=
  if b =? 0 then Raise ZeroDivisionError else Ok (a / b).

(** ** Logging *)

Inductive level : Type := DEBUG | INFO.
Inductive logarg : Type := AInt (z : Z) | AFloat (q : Q).
Record LogRecord : Type := mkLog { lvl : level; fmt : string; args : list logarg }.

(** ** Pixel arrays (row-major, as [numpy.ndarray]) *)

Definition zeros (nrow ncol : nat) : list (list Q) :=
  replicate nrow (replicate ncol 0%Q).

(** [a.shape], for an array with at least one row. *)
Definition shape (a : list (list Q)) : nat * nat :=
  (length a, length (default [] (head a))).

(** [a[i][j]] *)
Definition at2 (a : list (list Q)) (i j : nat) : option Q :=
  row ← a !! i; row !! j.

(** [a[i1:i2, j1:j2]] for indices within the array *)
Definition slice2 (a : list (list Q)) (i1 i2 j1 j2 : nat) : list (list Q) :=
  (fun row => take (j2 - j1) (drop j1 row)) <$> take (i2 - i1) (drop i1 a).

(** [row[j1:j1+len(s)] = s] *)
Definition write_row (row : list Q) (j1 : nat) (s : list Q) : list Q :=
  take j1 row ++ s ++ drop (j1 + length s) row.

(** [a[i1:i1+rows(s), j1:j1+cols(s)] = s] *)
Definition write_block (a : list (list Q)) (i1 j1 : nat) (s : list (list Q))
  : list (list Q) :=
  take i1 a
  ++ zip_with (fun row srow => write_row row j1 srow) (take (length s) (drop i1 a)) s
  ++ drop (i1 + length s) a.

(** Element-wise combination of two arrays of the same shape. *)
Definition map2 (f : Q -> Q -> Q) (a b : list (list Q)) : list (list Q) :=
  zip_with (zip_with f) a b.

Definition amap (f : Q -> Q) (a : list (list Q)) : list (list Q) :=
  (fun row : list Q => f <$> row) <$> a.

Definition asum (a : list (list Q)) : Q := foldr Qplus 0%Q (concat a).
Definition asize (a : list (list Q)) : nat := length (concat a).

(** [a.mean()] *)
Definition mean (a : list (list Q)) : Q :=
  (asum a / inject_Z (Z.of_nat (asize a)))%Q.

(** ** Photons ([galsim.PhotonArray]) *)

Record Photons : Type := mkPhotons {
  ph_x : list Q;
  ph_y : list Q;
  ph_flux : list Q;
  ph_wavelength : list Q
}.

(** [galsim.PhotonArray(n)] *)
Definition PhotonArray (n : nat) : Photons :=
  mkPhotons (replicate n 0%Q) (replicate n 0%Q) (replicate n 0%Q) [].

(** Line 194/195: [u * (hi - lo + 1) + lo - 0.5] *)
Definition place (lo hi : Z) (u : Q) : Q :=
  (u * inject_Z (hi - lo + 1) + inject_Z lo - (1 # 2))%Q.

(** ** Configuration values (the [config] dict of the image field) *)

Inductive Value : Type :=
  | VNum (q : Q)
  | VStr (s : string)
  | VDict (d : gmap string Value).

Inductive pytype : Type := PyFloat | PyInt.

(** The parameters [GetAllParams] returns for the [req] and [opt] tables of
    [setup]: required keys are always there, optional ones may be absent. *)
Record Params : Type := mkParams {
  p_counts_per_pixel : Q;
  p_xsize : Z;
  p_ysize : Z;
  p_max_counts_per_iter : option Q;
  p_buffer_size : option Z;
  p_nx : option Z;
  p_ny : option Z
}.

Section Model.
Context {WCS RNG Sensor SED Bandpass : Type}.

(** *** Images ([galsim.ImageF]) *)

Record Image : Type := mkImage {
  bounds : BoundsI;
  array : list (list Q);
  wcs : WCS
}.

Definition with_array (im : Image) (a : list (list Q)) : Image :=
  mkImage (bounds im) a (wcs im).

(** The array of a well-formed image has the shape of its bounds. *)
Definition wf_array (b : BoundsI) (a : list (list Q)) : Prop :=
  length a = (numpyShape b).1 /\
  Forall (fun row => length row = (numpyShape b).2) a.

Definition wf_image (im : Image) : Prop := wf_array (bounds im) (array im).

(** [im(x, y)] *)
Definition getValue (im : Image) (x y : Z) : option Q :=
  if includes_pos (bounds im) x y
  then at2 (array im) (Z.to_nat (y - ymin (bounds im)))
                      (Z.to_nat (x - xmin (bounds im)))
  else None.

(** [galsim.ImageF(ncol, nrow, wcs=w)]: zero-filled, lower-left pixel
    (1, 1).  NumPy refuses negative dimensions.  An image with a zero
    dimension has undefined bounds; its array is empty here (GalSim keeps a
    dummy element for it), so the model is exact for positive sizes. *)
Definition ImageF_size (ncol nrow : Z) (w : WCS) : result Image :=
  if (ncol <? 0) || (nrow <? 0) then Raise ValueError
  else Ok (mkImage (mkBoundsI 1 ncol 1 nrow)
                   (zeros (Z.to_nat nrow) (Z.to_nat ncol)) w).

(** [galsim.ImageF(b, wcs=w)] *)
Definition ImageF_bounds (b : BoundsI) (w : WCS) : Image :=
  mkImage b (zeros (numpyShape b).1 (numpyShape b).2) w.

(** [im[b]] ([Image.subImage]): the pixels of [im] inside [b]. *)
Definition subImage (im : Image) (b : BoundsI) : result Image :=
  if negb (isDefined (bounds im)) then Raise GalSimUndefinedBoundsError
  else if negb (includes (bounds im) b) then Raise GalSimBoundsError
  else
    let i1 := Z.to_nat (ymin b - ymin (bounds im)) in
    let i2 := Z.to_nat (ymax b - ymin (bounds im) + 1) in
    let j1 := Z.to_nat (xmin b - xmin (bounds im)) in
    let j2 := Z.to_nat (xmax b - xmin (bounds im) + 1) in
    Ok (mkImage b (slice2 (array im) i1 i2 j1 j2) (wcs im)).

(** [im[b] = rhs] ([Image.setSubImage]): [im.subImage(b).copyFrom(rhs)] *)
Definition setSubImage (im : Image) (b : BoundsI) (rhs : Image) : result Image :=
  view ← subImage im b;
  if bool_decide (numpyShape (bounds view) = numpyShape (bounds rhs))
  then Ok (with_array im
             (write_block (array im)
                (Z.to_nat (ymin b - ymin (bounds im)))
                (Z.to_nat (xmin b - xmin (bounds im)))
                (array rhs)))
  else Raise GalSimIncompatibleValuesError.

(** [im += other] and [im *= other] for an image [other] *)
Definition iop (f : Q -> Q -> Q) (im other : Image) : result Image :=
  if bool_decide (shape (array im) = shape (array other))
  then Ok (with_array im (map2 f (array im) (array other)))
  else Raise GalSimIncompatibleValuesError.

Definition iadd : Image -> Image -> result Image := iop Qplus.
Definition imul : Image -> Image -> result Image := iop Qmult.

(** [im *= s] and [im / s] for a number [s] *)
Definition imul_scalar (im : Image) (s : Q) : Image :=
  with_array im (amap (fun v => v * s)%Q (array im)).
Definition div_scalar (im : Image) (s : Q) : Image :=
  with_array im (amap (fun v => v / s)%Q (array im)).

(** [im.setZero()] *)
Definition setZero (im : Image) : Image :=
  with_array im (amap (fun _ => 0%Q) (array im)).

(** [im[b] += other[b]], as Python evaluates it: read the view, add in
    place, store the view back. *)
Definition iadd_sub (im : Image) (b : BoundsI) (other : Image) : result Image :=
  view ← subImage im b;
  rhs ← subImage other b;
  view' ← iadd view rhs;
  setSubImage im b view'.

(** *** The builder and its context *)

(** The fields [setup] stores on [self]. *)
Record Builder : Type := mkBuilder {
  counts_per_pixel : Q;
  xsize : Z;
  ysize : Z;
  buffer_size : Z;
  max_counts_per_iter : Q;
  sed : option SED;
  nx : Z;
  ny : Z
}.

(** The entries of the [base] dict the builder reads or writes. *)
Record Base : Type := mkBase {
  base_sensor : option Sensor;
  base_bandpass : option Bandpass;
  base_wcs : option WCS;
  base_image_type : option string
}.

(** What [sensor.calculate_pixel_areas] returns: an image, or a plain
    number (the trivial [galsim.Sensor]). *)
Inductive Area : Type :=
  | AreaScalar (a : Q)
  | AreaImage (im : Image).

(** The GalSim collaborators.  Each one that draws random numbers takes
    the state of the shared stream and returns the advanced state; each
    one that fills an image in place returns the new pixel array. *)
Record Ext : Type := mkExt {
  (** [galsim.Sensor()] *)
  trivial_sensor : Sensor;
  (** [sensor.calculate_pixel_areas(section)] *)
  calculate_pixel_areas : Sensor -> Image -> Area;
  (** [sensor.accumulate(photons, section)] *)
  accumulate : Sensor -> Photons -> Image -> RNG -> Sensor * list (list Q) * RNG;
  (** [wcs.makeSkyImage(image, sky_level)] *)
  makeSkyImage : WCS -> Image -> Q -> list (list Q);
  (** [galsim.config.AddNoise(base, image, current_var, logger)] *)
  AddNoise : Base -> Image -> Q -> RNG -> list (list Q) * RNG;
  (** [galsim.PoissonDeviate(rng, mean=m)()] *)
  PoissonDeviate : RNG -> Q -> nat * RNG;
  (** [galsim.UniformDeviate(rng)()] *)
  UniformDeviate : RNG -> Q * RNG;
  (** [galsim.WavelengthSampler(sed, bandpass).applyTo(photons, rng=rng)] *)
  applyTo : SED -> Bandpass -> Photons -> RNG -> Photons * RNG
}.

(** [ud.generate(arr)]: fill an array of [n] entries with successive draws. *)
Fixpoint generate (E : Ext) (n : nat) (r : RNG) : list Q * RNG :=
  match n with
  | O => ([], r)
  | S n' =>
      let '(u, r1) := UniformDeviate E r in
      let '(us, r2) := generate E n' r1 in
      (u :: us, r2)
  end.

(** *** [setup] (flat.py, lines 20-70) *)

Definition req : list (string * pytype) :=
  [("counts_per_pixel", PyFloat); ("xsize", PyInt); ("ysize", PyInt)].
Definition opt : list (string * pytype) :=
  [("max_counts_per_iter", PyFloat); ("buffer_size", PyInt);
   ("nx", PyInt); ("ny", PyInt)].

Section Setup.
(** [galsim.config.GetAllParams(config, base, req, opt, ignore)[0]] and
    [galsim.config.BuildSED(config, 'sed', base, logger)[0]] *)
Variable GetAllParams :
  gmap string Value -> Base -> list (string * pytype) ->
  list (string * pytype) -> list string -> result Params.
Variable BuildSED : gmap string Value -> string -> Base -> result SED.

(** Lines 66-68: give the sensor configuration a recalculation
    interval unless it has one. *)
Definition set_nrecalc (config : gmap string Value) (nrecalc : Q)
    (logger : list LogRecord)
  : result (gmap string Value * list LogRecord) :=
  match config !! "sensor" with
  | None => Ok (config, logger)
  | Some (VDict d) =>
      match d !! "nrecalc" with
      | Some _ => Ok (config, logger)
      | None =>
          Ok (<["sensor" := VDict (<["nrecalc" := VNum nrecalc]> d)]> config,
              logger ++ [mkLog DEBUG "setting nrecalc = %d" [AFloat nrecalc]])
      end
  | Some (VStr s) =>
      (* a substring test, then an item assignment on a string *)
      match String.index 0 "nrecalc" s with
      | Some _ => Ok (config, logger)
      | None => Raise TypeError
      end
  | Some (VNum _) => Raise TypeError
  end.

Definition setup (config : gmap string Value) (base : Base)
    (image_num obj_num : Z) (ignore : list string) (logger : list LogRecord)
  : result (Builder * gmap string Value * list LogRecord * (Z * Z)) :=
  let logger :=
    logger ++ [mkLog DEBUG "image %d: Building Tiled: image, obj = %d,%d"
                 [AInt image_num; AInt image_num; AInt obj_num]] in
  let ignore := ignore ++ ["sed"] in
  params ← GetAllParams config base req opt ignore;
  let counts_per_pixel := p_counts_per_pixel params in
  let xsize := p_xsize params in
  let ysize := p_ysize params in
  let buffer_size := default 2 (p_buffer_size params) in
  let max_counts_per_iter := default 1000%Q (p_max_counts_per_iter params) in
  self ←
    match config !! "sed" with
    | Some _ =>
        s ← BuildSED config "sed" base;
        Ok (mkBuilder counts_per_pixel xsize ysize buffer_size
              max_counts_per_iter (Some s)
              (default 16 (p_nx params)) (default 16 (p_ny params)))
    | None =>
        Ok (mkBuilder counts_per_pixel xsize ysize buffer_size
              max_counts_per_iter None
              (default 8 (p_nx params)) (default 2 (p_ny params)))
    end;
  '(config, logger) ←
    set_nrecalc config
      (max_counts_per_iter * inject_Z xsize * inject_Z ysize)%Q logger;
  Ok (self, config, logger, (xsize, ysize)).
End Setup.

(** *** [buildImage] (lines 72-91) and [getNObj] (lines 208-222) *)

Definition buildImage (self : Builder) (base : Base) : result (Image * Z * Base) :=
  match base_wcs base with
  | None => Raise (KeyError "wcs")
  | Some w =>
      image ← ImageF_size (xsize self) (ysize self) w;
      Ok (image, 0,
          mkBase (base_sensor base) (base_bandpass base) (base_wcs base)
                 (Some "FLAT"))
  end.

Definition getNObj (self : Builder) (config : gmap string Value) (base : Base)
    (image_num : Z) : Z := 0.

(** *** [addNoise] (lines 93-206) *)

(** The mutable objects [addNoise] works on: the output image, the one
    random stream that the builder, the sensor and the noise routine all
    draw from, the sensor, and the logger. *)
Record State : Type := mkState {
  st_image : Image;
  st_rng : RNG;
  st_sensor : Sensor;
  st_log : list LogRecord
}.

Definition set_image (im : Image) : M State unit :=
  modify (fun s => mkState im (st_rng s) (st_sensor s) (st_log s)).
Definition set_rng (r : RNG) : M State unit :=
  modify (fun s => mkState (st_image s) r (st_sensor s) (st_log s)).
Definition set_sensor (x : Sensor) : M State unit :=
  modify (fun s => mkState (st_image s) (st_rng s) x (st_log s)).
Definition log (l : level) (f : string) (a : list logarg) : M State unit :=
  modify (fun s => mkState (st_image s) (st_rng s) (st_sensor s)
                           (st_log s ++ [mkLog l f a])).

(** Lines 113-114: the number of iterations and the level per iteration. *)
Definition iteration_plan (counts_per_pixel max_counts_per_iter : Q)
  : result (Z * Q) :=
  ratio ← pydiv counts_per_pixel max_counts_per_iter;
  let niter := Qceiling ratio in
  counts_per_iter ← pydiv counts_per_pixel (inject_Z niter);
  Ok (niter, counts_per_iter).

(** Lines 119-129: the noise-free base image. *)
Definition rescale (base_image : Image) (counts_per_iter : Q) : Image :=
  let mean_pixel_area := mean (array base_image) in
  let sky_level_per_iter := (counts_per_iter / mean_pixel_area)%Q in
  imul_scalar base_image sky_level_per_iter.

Definition make_base_image (E : Ext) (self : Builder) (image : Image)
    (counts_per_iter : Q) : Image :=
  let base_image :=
    ImageF_bounds (withBorder (bounds image) (buffer_size self)) (wcs image) in
  match sed self with
  | None =>
      let base_image :=
        with_array base_image (makeSkyImage E (wcs base_image) base_image 1%Q) in
      rescale base_image counts_per_iter
  | Some _ => base_image
  end.

(** Lines 131-134: the wavelength sampler needs a bandpass. *)
Definition wavelength_sampler (self : Builder) (base : Base)
  : result (option (SED * Bandpass)) :=
  match sed self with
  | None => Ok None
  | Some s =>
      match base_bandpass base with
      | None =>
          Raise (RuntimeError "Using sed with flat builder requires a valid bandpass")
      | Some bp => Ok (Some (s, bp))
      end
  end.

(** Lines 162-168: the expectation value in each pixel of the section. *)
Definition expected_increment (E : Ext) (sensor : Sensor)
    (section base_image : Image) (bnds : BoundsI) : result Image :=
  let area := calculate_pixel_areas E sensor section in
  temp ← subImage base_image bnds;
  match area with
  | AreaImage a => imul temp (div_scalar a (mean (array a)))
  | AreaScalar _ => Ok temp
  end.

(** Lines 159-176: one iteration without an SED. *)
Definition mean_level_iteration (E : Ext) (base : Base) (base_image : Image)
    (sec bnds : BoundsI) (section : Image) : M State Image :=
  s ← get;
  temp ← lift (expected_increment E (st_sensor s) section base_image bnds);
  let '(noisy, r) := AddNoise E base temp 0%Q (st_rng s) in
  set_rng r;;
  section ← lift (iadd section (with_array temp noisy));
  view ← lift (subImage section sec);
  log DEBUG "mean level => %s" [AFloat (mean (array view))];;
  mret section.

(** Lines 185-196: the photons of one iteration. *)
Definition shoot_photons (E : Ext) (counts_per_iter : Q) (bnds : BoundsI)
    (r : RNG) : Photons * RNG :=
  let nphotons := (counts_per_iter * inject_Z (area bnds))%Q in
  let '(nphotons, r) := PoissonDeviate E r nphotons in
  let photons := PhotonArray nphotons in
  let '(ux, r) := generate E (length (ph_x photons)) r in
  let '(uy, r) := generate E (length (ph_y photons)) r in
  (mkPhotons (place (xmin bnds) (xmax bnds) <$> ux)
             (place (ymin bnds) (ymax bnds) <$> uy)
             (replicate (length (ph_flux photons)) 1%Q)
             (ph_wavelength photons),
   r).

(** Lines 178-202: one iteration with an SED. *)
Definition photon_iteration (E : Ext) (sampler : SED * Bandpass)
    (counts_per_iter : Q) (sec bnds : BoundsI) (section : Image)
  : M State Image :=
  s ← get;
  let '(photons, r) := shoot_photons E counts_per_iter bnds (st_rng s) in
  let '(photons, r) := applyTo E sampler.1 sampler.2 photons r in
  let '(sensor, arr, r) := accumulate E (st_sensor s) photons section r in
  set_rng r;;
  set_sensor sensor;;
  let section := with_array section arr in
  view ← lift (subImage section sec);
  log DEBUG "added %d photons: mean level => %s"
      [AInt (Z.of_nat (length (ph_x photons))); AFloat (mean (array view))];;
  mret section.

Definition iteration (E : Ext) (base : Base) (sampler : option (SED * Bandpass))
    (counts_per_iter : Q) (base_image : Image) (sec bnds : BoundsI)
    (section : Image) (it : Z) : M State Image :=
  log DEBUG "iter %d" [AInt it];;
  match sampler with
  | None => mean_level_iteration E base base_image sec bnds section
  | Some sp => photon_iteration E sp counts_per_iter sec bnds section
  end.

(** Lines 204-206: merge the section into the output image. *)
Definition merge_section (sec : BoundsI) (section : Image) : M State unit :=
  s ← get;
  image ← lift (iadd_sub (st_image s) sec section);
  set_image image;;
  view ← lift (subImage image sec);
  log INFO "Done section: mean level => %s" [AFloat (mean (array view))].

(** Lines 146-206: the body of the inner loop, for section [(i, j)]. *)
Definition do_section (E : Ext) (self : Builder) (base : Base)
    (sampler : option (SED * Bandpass)) (niter : Z) (counts_per_iter : Q)
    (base_image : Image) (ncol nrow dx dy i j : Z) : M State unit :=
  log INFO "section: %d, %d (of %d,%d)"
      [AInt i; AInt j; AInt (nx self); AInt (ny self)];;
  let sec := sec_bounds_step ncol nrow (nx self) (ny self) dx dy i j in
  let bnds := withBorder sec (buffer_size self) in
  section ← lift (subImage base_image bnds);
  let section := setZero section in
  section ← for_acc (range niter)
              (iteration E base sampler counts_per_iter base_image sec bnds)
              section;
  merge_section sec section.

Definition addNoise_body (E : Ext) (self : Builder) (base : Base) : M State unit :=
  '(niter, counts_per_iter) ←
    lift (iteration_plan (counts_per_pixel self) (max_counts_per_iter self));
  log INFO "Making flat: niter = %d, counts_per_iter = %d"
      [AInt niter; AFloat counts_per_iter];;
  s ← get;
  let image := st_image s in
  let '(nrow, ncol) := shape (array image) in
  let nrow := Z.of_nat nrow in
  let ncol := Z.of_nat ncol in
  let base_image := make_base_image E self image counts_per_iter in
  sampler ← lift (wavelength_sampler self base);
  dx ← lift (floordiv ncol (nx self));
  dy ← lift (floordiv nrow (ny self));
  for_ (range (nx self)) (fun i =>
    for_ (range (ny self)) (fun j =>
      do_section E self base sampler niter counts_per_iter base_image
                 ncol nrow dx dy i j)).

(** [addNoise(image, config, base, image_num, obj_num, current_var,
    logger)]: [rng] is the stream [GetRNG] returns for this image; the
    sensor is the one of [base], or a trivial one.  [sensor.updateRNG(rng)]
    makes the sensor draw from that same stream, which the model
    expresses by handing the stream to every sensor call. *)
Definition addNoise (E : Ext) (self : Builder) (image : Image) (base : Base)
    (image_num obj_num : Z) (current_var : Q) (rng : RNG)
    (logger : list LogRecord) : State * result unit :=
  let sensor := default (trivial_sensor E) (base_sensor base) in
  addNoise_body E self base (mkState image rng sensor logger).

(** Two sets of collaborators behave alike: each operation answers the
    same request (arguments and state of the random stream) in the same
    way. *)
Definition ext_agree (E1 E2 : Ext) : Prop :=
  trivial_sensor E1 = trivial_sensor E2 /\
  (forall sensor im,
      calculate_pixel_areas E1 sensor im = calculate_pixel_areas E2 sensor im) /\
  (forall sensor photons im r,
      accumulate E1 sensor photons im r = accumulate E2 sensor photons im r) /\
  (forall w im sky, makeSkyImage E1 w im sky = makeSkyImage E2 w im sky) /\
  (forall base im var r, AddNoise E1 base im var r = AddNoise E2 base im var r) /\
  (forall r m, PoissonDeviate E1 r m = PoissonDeviate E2 r m) /\
  (forall r, UniformDeviate E1 r = UniformDeviate E2 r) /\
  (forall s bp photons r, applyTo E1 s bp photons r = applyTo E2 s bp photons r).

(** Collaborators that fill an image in place keep the shape of its array,
    and an area image has the bounds of the section it was computed for. *)
Definition ext_shapes (E : Ext) : Prop :=
  (forall sensor im a,
      wf_image im -> calculate_pixel_areas E sensor im = AreaImage a ->
      bounds a = bounds im /\ wf_image a) /\
  (forall sensor photons im r,
      wf_image im -> wf_array (bounds im) (accumulate E sensor photons im r).1.2) /\
  (forall w im sky, wf_image im -> wf_array (bounds im) (makeSkyImage E w im sky)) /\
  (forall base im var r,
      wf_image im -> wf_array (bounds im) (AddNoise E base im var r).1).
End Model.

Arguments Image : clear implicits.
Arguments Base : clear implicits.
Arguments Builder : clear implicits.
Arguments Area : clear implicits.
Arguments Ext : clear implicits.
Arguments State : clear implicits.

(** ** A small instance of the collaborators, to run the model on *)

(** A sensor is [true] when it models pixel-area changes (it then returns
    an area image), and [false] for the trivial one; the random stream is a
    linear congruential generator; the coordinate mapping is the area of
    the pixels of the first row. *)
Definition toy_next (r : Z) : Z := (5 * r + 3) mod 16.

Definition toy_areas (sensor : bool) (section : Image Q) : Area Q :=
  if sensor
  then AreaImage (with_array section (amap (fun v => 1 + v / 1000)%Q (array section)))
  else AreaScalar 1%Q.

(** The pixel a photon at [(x, y)] falls in has its centre at the nearest
    integers. *)
Definition toy_hits (photons : Photons) (x y : Z) : Z :=
  Z.of_nat (length (filter
    (fun p : Q * Q => Qfloor (p.1 + (1 # 2)) = x /\ Qfloor (p.2 + (1 # 2)) = y)
    (zip (ph_x photons) (ph_y photons)))).

Definition toy_accumulate (sensor : bool) (photons : Photons) (section : Image Q)
    (r : Z) : bool * list (list Q) * Z :=
  (sensor,
   imap (fun i row =>
     imap (fun j v =>
       (v + inject_Z (toy_hits photons (xmin (bounds section) + Z.of_nat j)
                                       (ymin (bounds section) + Z.of_nat i)))%Q)
       row) (array section),
   toy_next r).

Definition toy_sky (w : Q) (im : Image Q) (sky_level : Q) : list (list Q) :=
  imap (fun i row => (fun _ => sky_level * (w + inject_Z (Z.of_nat i)))%Q <$> row)
       (array im).

Definition toy_noise (base : Base Q bool unit) (im : Image Q) (current_var : Q)
    (r : Z) : list (list Q) * Z :=
  (amap (fun v => v + inject_Z (r mod 3) - 1)%Q (array im), toy_next r).

Definition toy_poisson (r : Z) (m : Q) : nat * Z :=
  (Z.to_nat (Qfloor m + r mod 2), toy_next r).

Definition toy_uniform (r : Z) : Q * Z := (inject_Z (r mod 16) / 16, toy_next r)%Q.

Definition toy_applyTo (s : unit) (bp : unit) (photons : Photons) (r : Z)
  : Photons * Z :=
  (mkPhotons (ph_x photons) (ph_y photons) (ph_flux photons)
             (replicate (length (ph_x photons)) 500%Q),
   toy_next r).

Definition toy : Ext Q Z bool unit unit :=
  mkExt false toy_areas toy_accumulate toy_sky toy_noise toy_poisson
        toy_uniform toy_applyTo.

(** A 4 x 2 flat built in 2 x 1 sections, 3 counts per pixel, at most 2 per
    iteration, with a one-pixel buffer. *)
Definition toy_builder (s : option unit) : Builder unit :=
  mkBuilder 3%Q 4 2 1 2%Q s 2 1.

Definition toy_base (bp : option unit) : Base Q bool unit :=
  mkBase None bp (Some 1%Q) None.

Definition toy_image : Image Q := mkImage (mkBoundsI 1 4 1 2) (zeros 2 4) 1%Q.

(** A full LSST CCD: a 4096 x 4004 flat at 20000 counts
    per pixel, every optional key left out, for a configuration that has a
    sensor entry (without a recalculation interval) and no SED. *)
Definition toy_params : Params := mkParams 20000%Q 4096 4004 None None None None.

Definition toy_config : gmap string Value :=
  {[ "type" := VStr "LSST_Flat";
     "sensor" := VDict {[ "type" := VStr "Silicon" ]} ]}.

Definition toy_GetAllParams (config : gmap string Value) (base : Base Q bool unit)
    (req opt : list (string * pytype)) (ignore : list string) : result Params :=
  Ok toy_params.

Definition toy_BuildSED (config : gmap string Value) (key : string)
    (base : Base Q bool unit) : result unit := Ok tt.

(** A section of twos over [0..3] x [0..3], whose interior [1..2] x [1..2]
    is to be merged into a 4 x 2 image of ones. *)
Definition toy_section : Image Q :=
  mkImage (mkBoundsI 0 3 0 3) (replicate 4 (replicate 4 2%Q)) 1%Q.

Definition toy_state : State Q Z bool :=
  mkState (mkImage (mkBoundsI 1 4 1 2) (replicate 2 (replicate 4 1%Q)) 1%Q)
          7 false [].

(** The same collaborators, written differently. *)
Definition toy_uniform' (r : Z) : Q * Z :=
  (inject_Z (r mod 16) / 16, (3 + r * 5) mod 16)%Q.

Definition toy' : Ext Q Z bool unit unit :=
  mkExt false (fun sensor im => toy_areas sensor im) toy_accumulate toy_sky
        toy_noise (fun r m => toy_poisson r m) toy_uniform' toy_applyTo.

(** ** A flat without noise or sensor effects *)

Section Quiet.
Context {WCS RNG Sensor SED Bandpass : Type}.

(** The noise routine leaves the image as it is (no noise is configured),
    consuming no random number. *)
Definition noise_free (E : Ext WCS RNG Sensor SED Bandpass) : Prop :=
  forall base im var r, AddNoise E base im var r = (array im, r).

(** The sensor never returns an area image (as the trivial sensor). *)
Definition scalar_areas (E : Ext WCS RNG Sensor SED Bandpass) : Prop :=
  forall sensor im, exists a, calculate_pixel_areas E sensor im = AreaScalar a.

(** Every pixel of [section] is [k] times the pixel of [temp] at the same
    place. *)
Definition multiple_of (section temp : Image WCS) (k : Z) : Prop :=
  forall x y, includes_pos (bounds temp) x y = true ->
    exists w t, getValue section x y = Some w /\ getValue temp x y = Some t /\
                (w == inject_Z k * t)%Q.

(** The sky image of lines 119-124, before it is rescaled. *)
Definition sky_image (E : Ext WCS RNG Sensor SED Bandpass) (self : Builder SED)
    (image : Image WCS) : Image WCS :=
  let base_image :=
    ImageF_bounds (withBorder (bounds image) (buffer_size self)) (wcs image) in
  with_array base_image (makeSkyImage E (wcs base_image) base_image 1%Q).
End Quiet.

(** The small instance without noise and with the trivial sensor only. *)
Definition quiet : Ext Q Z bool unit unit :=
  mkExt false (fun _ _ => AreaScalar 1%Q) toy_accumulate toy_sky
        (fun _ im _ r => (array im, r)) toy_poisson toy_uniform toy_applyTo.

(** * Sampling coordinates and nominal coefficients ([optical_system.py])

    The trigonometric functions, the square root and SciPy's [interp2d]
    are parameters; numbers are exact rationals as before, so the decimal
    constants of the source stand for themselves. *)

Inductive pyexn : Type :=
  | PyValueError (msg : string)
  | PyAssertionError
  | PyIndexError.

Inductive outcome (A : Type) : Type :=
  | Done (a : A)
  | Fail (e : pyexn).
Arguments Done {A} a.
Arguments Fail {A} e.

Global Instance outcome_ret : MRet outcome := fun A a => Done a.
Global Instance outcome_bind : MBind outcome := fun A B f r =>
  match r with
  | Done a => f a
  | Fail e => Fail e
  end.

(** [[f(x) for x in xs]], stopping at the first exception. *)
Fixpoint map_outcome {A B : Type} (f : A -> outcome B) (xs : list A)
  : outcome (list B) :=
  match xs with
  | [] => Done []
  | x :: xs' => y ← f x; ys ← map_outcome f xs'; Done (y :: ys)
  end.

(** [xs[i]] *)
Definition getitem (xs : list Q) (i : nat) : outcome Q :=
  match xs !! i with
  | Some x => Done x
  | None => Fail PyIndexError
  end.

(** [np.arange(start, stop, step)] for a positive step *)
Definition arange (start stop step : Q) : list Q :=
  (fun k => start + inject_Z (Z.of_nat k) * step)%Q
    <$> seq 0 (Z.to_nat (Qceiling ((stop - start) / step))).

(** [a.shape] of a three-dimensional array (with non-empty axes) *)
Definition shape3 (a : list (list (list Q))) : nat * nat * nat :=
  (length a,
   length (default [] (head a)),
   length (default [] (head (default [] (head a))))).

(** [a[:, :, i]] *)
Definition plane (a : list (list (list Q))) (i : nat) : list (list Q) :=
  (fun row : list (list Q) =>
     (fun cell : list Q => default 0%Q (cell !! i)) <$> row) <$> a.

(** [m.transpose()] of an array with [ncols] columns *)
Definition transpose (ncols : nat) (m : list (list Q)) : list (list Q) :=
  (fun k => (fun row : list Q => default 0%Q (row !! k)) <$> m) <$> seq 0 ncols.

Inductive interp_kind : Type := Linear | Cubic.

(** Lines 42-43 and 50-51: the spines and the corner rafts. *)
Definition radii : list Q :=
  [379 # 1000; 841 # 1000; 1237 # 1000; 1535 # 1000; 1708 # 1000]%Q.
Definition spine_angles : list Q := [0; 60; 120; 180; 240; 300]%Q.
Definition x_raft_coords : list Q :=
  [1185 # 1000; - (1185 # 1000); - (1185 # 1000); 1185 # 1000]%Q.
Definition y_raft_coords : list Q :=
  [1185 # 1000; 1185 # 1000; - (1185 # 1000); - (1185 # 1000)]%Q.

Section Optics.
(** [np.cos], [np.sin], [np.deg2rad], [np.arctan2], [np.sqrt] *)
Variables cos sin deg2rad : Q -> Q.
Variable arctan2 : Q -> Q -> Q.
Variable sqrt : Q -> Q.
(** [interp2d(x, y, z, kind=kind)(fp_x, fp_y)[0]] *)
Variable interp2d : list Q -> list Q -> list (list Q) -> interp_kind -> Q -> Q -> Q.

(** [cartesian_coords()] (lines 25-53) *)
Definition cartesian_coords : list Q * list Q :=
  let x_list := [0%Q] in
  let y_list := [0%Q] in
  let angles := deg2rad <$> spine_angles in
  let x_list :=
    x_list ++ (radius ← radii; angle ← angles; [radius * cos angle]%Q) in
  let y_list :=
    y_list ++ (radius ← radii; angle ← angles; [radius * sin angle]%Q) in
  (x_list ++ x_raft_coords, y_list ++ y_raft_coords).

(** [polar_coords()] (lines 56-87) *)
Definition polar_coords : list Q * list Q :=
  let r_list := [0%Q] in
  let theta_list := [0%Q] in
  let r_list :=
    r_list ++ (radius ← radii; angle ← spine_angles; [radius]) in
  let theta_list :=
    theta_list ++ (radius ← radii; angle ← spine_angles; [deg2rad angle]) in
  let corners := zip x_raft_coords y_raft_coords in
  (r_list ++ ((fun xy : Q * Q => sqrt (xy.1 * xy.1 + xy.2 * xy.2)%Q) <$> corners),
   theta_list ++ ((fun xy : Q * Q => arctan2 xy.2 xy.1) <$> corners)).

(** Lines 102-105: the grid the Zemax estimates are sampled on. *)
Definition n_samples : Z := 32.
Definition fov : Q * Q * Q * Q := (- (2), 2, - (2), 2)%Q.
Definition x_sampling : list Q :=
  arange fov.1.1.1 fov.1.1.2 ((fov.1.1.2 - fov.1.1.1) / inject_Z n_samples).
Definition y_sampling : list Q :=
  arange fov.1.2 fov.2 ((fov.2 - fov.1.2) / inject_Z n_samples).

Definition max_fov : Q := 175 # 100.

(** [_interp_nominal_coeff(zemax_est, fp_x, fp_y)] (lines 90-120) *)
Definition _interp_nominal_coeff (zemax_est : list (list (list Q)))
    (fp_x fp_y : Q) : outcome (list Q) :=
  if negb (Qle_bool (Qabs fp_x) max_fov) || negb (Qle_bool (Qabs fp_y) max_fov)
  then Fail (PyValueError "Given coordinates are outside the field of view.")
  else
    let num_zernike_coeff := (shape3 zemax_est).2 in
    let out_arr :=
      (fun i => interp2d x_sampling y_sampling (plane zemax_est i) Linear
                         fp_x fp_y)
        <$> seq 0 num_zernike_coeff in
    Done (drop 3 out_arr).

(** [out_array[i] = row] for a row of [out_array] with 19 entries: NumPy
    takes a row of that length, spreads a single value, and refuses any
    other length. *)
Definition assign_row (row : list Q) : outcome (list Q) :=
  if decide (length row = 19%nat) then Done row
  else match row with
       | [v] => Done (replicate 19 v)
       | _ => Fail (PyValueError "could not broadcast input array")
       end.

(** [_gen_nominal_coeff(zemax_path)] (lines 123-147), for the table
    [zemax_est] read from [zemax_path]; the result is the table written to
    [NOMINAL_PATH]. *)
Definition _gen_nominal_coeff (zemax_est : list (list (list Q)))
  : outcome (list (list Q)) :=
  if decide (shape3 zemax_est = (32, 32, 22)%nat) then
    let '(x_coords, y_coords) := cartesian_coords in
    let num_cords := length x_coords in
    out_array ← map_outcome
      (fun i =>
         x ← getitem x_coords i;
         y ← getitem y_coords i;
         row ← _interp_nominal_coeff zemax_est x y;
         assign_row row)
      (seq 0 num_cords);
    Done (transpose 19 out_array)
  else Fail PyAssertionError.
End Optics.

(** ** The class [OpticalZernikes] (lines 205-336)

    Arrays of deviations are one-dimensional, as [mock_deviations] returns
    them; the class attributes [sensitivity] and [nominal_coeff] are the
    arrays read from [MATRIX_PATH] and [NOMINAL_PATH]. *)

(** Rectangular arrays of a given shape. *)
Definition has_shape (a : list (list Q)) (n m : nat) : Prop :=
  length a = n /\ Forall (fun row => length row = m) a.
Definition has_shape3 (a : list (list (list Q))) (n m p : nat) : Prop :=
  length a = n /\ Forall (fun row => has_shape row m p) a.

(** The sum of the products of two vectors. *)
Definition dot1 (u v : list Q) : Q := foldr Qplus 0%Q (zip_with Qmult u v).

(** [np.dot(a, b)] of a three-dimensional [a] with a one-dimensional [b]:
    the sum over the last axis of [a], whose length must be that of [b]
    (NumPy's message also names the two shapes). *)
Definition dot (a : list (list (list Q))) (b : list Q)
  : outcome (list (list Q)) :=
  if decide ((shape3 a).2 = length b)
  then Done ((fun row : list (list Q) =>
                (fun cell : list Q => dot1 cell b) <$> row) <$> a)
  else Fail (PyValueError "shapes not aligned").

(** NumPy's broadcasting of one axis: equal lengths, or one of them 1. *)
Definition broadcast_dim (n m : nat) : option nat :=
  if decide (n = m) then Some n
  else if decide (n = 1%nat) then Some m
  else if decide (m = 1%nat) then Some n
  else None.

(** The index read along an axis of length [n] for position [i] of the
    broadcast result. *)
Definition bidx (n i : nat) : nat := if decide (n = 1%nat) then 0%nat else i.

(** [np.add(a, b)] of two two-dimensional arrays *)
Definition np_add (a b : list (list Q)) : outcome (list (list Q)) :=
  match broadcast_dim (shape a).1 (shape b).1,
        broadcast_dim (shape a).2 (shape b).2 with
  | Some nrow, Some ncol =>
      Done ((fun i =>
               (fun j =>
                  (default 0 (at2 a (bidx (shape a).1 i) (bidx (shape a).2 j))
                   + default 0 (at2 b (bidx (shape b).1 i) (bidx (shape b).2 j)))%Q)
                 <$> seq 0 ncol)
              <$> seq 0 nrow)
  | _, _ => Fail (PyValueError "operands could not be broadcast together")
  end.

Record OpticalZernikes : Type := mkOpticalZernikes {
  deviations : list Q;
  deviation_coeff : list (list Q);
  sampling_coeff : list (list Q);
  _fit_functions : list (Q -> Q -> Q);
  _polar_coords : option (list Q * list Q)
}.

Section Zernikes.
Variables cos sin deg2rad : Q -> Q.
(** Class attributes. *)
Variable sensitivity : list (list (list Q)).
Variable nominal_coeff : list (list Q).
(** [mock_deviations()]: the array drawn, or the exception raised. *)
Variable mock_deviations : outcome (list Q).
(** [Zernike(np.linalg.lstsq(zernikeBasis(22, x, y).T, coefficient)[0])
    .evalCartesian]: the function fitted to the values [coefficient] at the
    points [x], [y]. *)
Variable fit : list Q -> list Q -> list Q -> Q -> Q -> Q.

(** [_optimize_fits] (lines 238-254) *)
Definition _optimize_fits (sampling_coeff : list (list Q))
  : list (Q -> Q -> Q) :=
  let '(x, y) := cartesian_coords cos sin deg2rad in
  (fun coefficient => fit x y coefficient) <$> sampling_coeff.

(** [OpticalZernikes(deviations)] (lines 221-236) *)
Definition __init__ (deviations : option (list Q)) : outcome OpticalZernikes :=
  deviations ← match deviations with
               | None => mock_deviations
               | Some d => Done d
               end;
  product ← dot sensitivity deviations;
  let deviation_coeff := transpose (shape product).2 product in
  sampling_coeff ← np_add deviation_coeff nominal_coeff;
  Done (mkOpticalZernikes deviations deviation_coeff sampling_coeff
                          (_optimize_fits sampling_coeff) None).

(** [polar_coeff] (lines 291-304) and [cartesian_coeff] (lines 306-318),
    at one point *)
Definition polar_coeff (self : OpticalZernikes) (fp_r fp_t : Q) : list Q :=
  let x := (fp_r * cos fp_t)%Q in
  let y := (fp_r * sin fp_t)%Q in
  (fun func : Q -> Q -> Q => func x y) <$> _fit_functions self.

Definition cartesian_coeff (self : OpticalZernikes) (fp_x fp_y : Q) : list Q :=
  (fun func : Q -> Q -> Q => func fp_x fp_y) <$> _fit_functions self.
End Zernikes.

(** ** A small optical system *)

(** Rational stand-ins for the cosine and the sine (of half-angle tangent
    [a]), bounded by one. *)
Definition toy_cos (a : Q) : Q := ((1 - a * a) / (1 + a * a))%Q.
Definition toy_sin (a : Q) : Q := ((2 * a) / (1 + a * a))%Q.
Definition toy_deg2rad (a : Q) : Q := (a * (355 # 113) / 180)%Q.

(** The value at the nearest grid node below the point. *)
Definition toy_interp2d (xs ys : list Q) (z : list (list Q)) (kind : interp_kind)
    (x y : Q) : Q :=
  let below (grid : list Q) (v : Q) :=
    pred (length (filter (fun g => Qle_bool g v = true) grid)) in
  default 0%Q (at2 z (below xs x) (below ys y)).

(** Estimates of shape (32, 32, 22): plane [p] holds [p] everywhere. *)
Definition toy_zemax : list (list (list Q)) :=
  replicate 32 (replicate 32 ((fun p => inject_Z (Z.of_nat p)) <$> seq 0 22)).

(** A sensitivity of shape (35, 19, 50), nominal coefficients of shape
    (19, 35), fifty deviations and a fit that averages its samples. *)
Definition toy_sensitivity : list (list (list Q)) :=
  replicate 35 (replicate 19 (replicate 50 (1 # 50)%Q)).
Definition toy_nominal : list (list Q) :=
  (fun k => replicate 35 (inject_Z (Z.of_nat k))) <$> seq 0 19.
Definition toy_deviations : list Q := replicate 50 (1 # 2)%Q.
Definition toy_fit (x y coefficient : list Q) (fp_x fp_y : Q) : Q :=
  (foldr Qplus 0 coefficient / inject_Z (Z.of_nat (length coefficient)))%Q.

(** A fitted function gives equal values at equal points. *)
Definition respects_Qeq (f : Q -> Q -> Q) : Prop :=
  forall x x' y y', (x == x')%Q -> (y == y')%Q -> (f x y == f x' y')%Q.

(** An instance with two fitted functions. *)
Definition toy_instance : OpticalZernikes :=
  mkOpticalZernikes [] [] []
    [(fun x y => x + y)%Q; (fun x y => x * y - 1)%Q] None.

(** * Properties *)

(** ** Bounds and the section grid *)

Lemma includes_pos_spec b x y :
  includes_pos b x y = true <-> xmin b <= x <= xmax b /\ ymin b <= y <= ymax b.
Proof.
  unfold includes_pos, isDefined.
  rewrite !andb_true_iff, !Z.leb_le. lia.
Qed.

Lemma includes_spec b c :
  includes b c = true <->
  xmin b <= xmin c /\ xmin c <= xmax c /\ xmax c <= xmax b /\
  ymin b <= ymin c /\ ymin c <= ymax c /\ ymax c <= ymax b.
Proof.
  unfold includes, isDefined.
  rewrite !andb_true_iff, !Z.leb_le. lia.
Qed.

Lemma isDefined_spec b :
  isDefined b = true <-> xmin b <= xmax b /\ ymin b <= ymax b.
Proof. unfold isDefined. rewrite andb_true_iff, !Z.leb_le. lia. Qed.

Lemma elem_of_range n i : i ∈ range n <-> 0 <= i < n.
Proof.
  unfold range. rewrite list_elem_of_fmap. split.
  - intros (k & -> & Hk). apply elem_of_seq in Hk. lia.
  - intros Hi. exists (Z.to_nat i). split; [lia|]. apply elem_of_seq. lia.
Qed.

Lemma elem_of_grid nx ny i j :
  (i, j) ∈ grid nx ny <-> 0 <= i < nx /\ 0 <= j < ny.
Proof.
  unfold grid. rewrite list_elem_of_bind. split.
  - intros (i' & Hj & Hi). apply list_elem_of_bind in Hj as (j' & Hij & Hj).
    apply list_elem_of_singleton in Hij. inversion Hij; subst.
    apply elem_of_range in Hi, Hj. lia.
  - intros [Hi Hj]. exists i. split; [|by apply elem_of_range].
    apply list_elem_of_bind. exists j. split; [|by apply elem_of_range].
    by apply list_elem_of_singleton.
Qed.

(** One axis of the grid: the intervals [col_min .. col_max] for
    [i = 0 .. n-1] cut [1 .. len] into consecutive pieces. *)
Section Axis.
Variables len n : Z.
Hypothesis Hlen : 0 < len.
Hypothesis Hn : 0 < n.

Let d := len / n.

Lemma axis_step : 0 <= d /\ n * d <= len.
Proof using Hlen Hn.
  subst d. split.
  - apply Z.div_pos; lia.
  - apply Z.mul_div_le. lia.
Qed.

Lemma axis_cover x :
  1 <= x <= len ->
  exists i, 0 <= i < n /\ col_min d i <= x <= col_max len n d i.
Proof using Hlen Hn.
  intros Hx. destruct axis_step as [Hd Hnd].
  destruct (Z.eq_dec d 0) as [Hd0 | Hd0].
  { (* every regular column is empty: the stretched last one holds [x] *)
    exists (n - 1). unfold col_min, col_max. rewrite Z.eqb_refl. nia. }
  set (q := (x - 1) / d).
  assert (Hdm := Z.div_mod (x - 1) d Hd0).
  assert (Hr := Z.mod_pos_bound (x - 1) d ltac:(lia)).
  fold q in Hdm.
  assert (Hq0 : 0 <= q) by (apply Z.div_pos; lia).
  destruct (Z_lt_le_dec q (n - 1)) as [Hsmall | Hbig].
  - exists q. unfold col_min, col_max.
    split; [lia|]. destruct (Z.eqb_spec q (n - 1)); nia.
  - exists (n - 1). unfold col_min, col_max. rewrite Z.eqb_refl.
    split; [lia|]. nia.
Qed.

Lemma axis_inside i x :
  0 <= i < n -> col_min d i <= x <= col_max len n d i -> 1 <= x <= len.
Proof using Hlen Hn.
  intros Hi. destruct axis_step as [Hd Hnd].
  unfold col_min, col_max. destruct (Z.eqb_spec i (n - 1)); nia.
Qed.

Lemma axis_disjoint i i' x :
  0 <= i < n -> 0 <= i' < n ->
  col_min d i <= x <= col_max len n d i ->
  col_min d i' <= x <= col_max len n d i' ->
  i = i'.
Proof using Hlen Hn.
  intros Hi Hi'. destruct axis_step as [Hd Hnd].
  unfold col_min, col_max.
  destruct (Z.eqb_spec i (n - 1)), (Z.eqb_spec i' (n - 1)); nia.
Qed.
End Axis.

(** C1. For positive image and grid dimensions, the un-expanded sections
    built by the two loops of [addNoise] (with [dx = ncol // nx] and
    [dy = nrow // ny]) tile the rectangle [1..ncol] x [1..nrow] exactly: a
    pixel lies in some section if and only if it lies in the rectangle,
    and no pixel lies in two different sections.  This holds whether or
    not [nx] divides [ncol] and [ny] divides [nrow]. *)
Theorem sections_tile_image (ncol nrow nx ny : Z) :
  0 < ncol -> 0 < nrow -> 0 < nx -> 0 < ny ->
  forall x y : Z,
    ((1 <= x <= ncol /\ 1 <= y <= nrow) <->
     exists b, b ∈ sections ncol nrow nx ny /\ includes_pos b x y = true) /\
    (forall i j i' j',
        (i, j) ∈ grid nx ny -> (i', j') ∈ grid nx ny ->
        includes_pos (sec_bounds ncol nrow nx ny i j) x y = true ->
        includes_pos (sec_bounds ncol nrow nx ny i' j') x y = true ->
        (i, j) = (i', j')).
Proof.
  intros Hc Hr Hnx Hny x y. split; [split|].
  - intros [Hx Hy].
    destruct (axis_cover ncol nx Hc Hnx x Hx) as (i & Hi & Hxi).
    destruct (axis_cover nrow ny Hr Hny y Hy) as (j & Hj & Hyj).
    exists (sec_bounds ncol nrow nx ny i j). split.
    + unfold sections. apply list_elem_of_fmap. exists (i, j).
      split; [done|]. by apply elem_of_grid.
    + apply includes_pos_spec. simpl. lia.
  - intros (b & Hb & Hin). unfold sections in Hb.
    apply list_elem_of_fmap in Hb as ([i j] & -> & Hij).
    apply elem_of_grid in Hij as [Hi Hj].
    apply includes_pos_spec in Hin. simpl in Hin. destruct Hin as [Hxi Hyj].
    split.
    + exact (axis_inside ncol nx Hc Hnx i x Hi Hxi).
    + exact (axis_inside nrow ny Hr Hny j y Hj Hyj).
  - intros i j i' j' Hij Hij' H1 H2.
    apply elem_of_grid in Hij as [Hi Hj], Hij' as [Hi' Hj'].
    apply includes_pos_spec in H1, H2. simpl in H1, H2.
    destruct H1 as [Hx1 Hy1], H2 as [Hx2 Hy2].
    f_equal.
    + exact (axis_disjoint ncol nx Hc Hnx i i' x Hi Hi' Hx1 Hx2).
    + exact (axis_disjoint nrow ny Hr Hny j j' y Hj Hj' Hy1 Hy2).
Qed.

(** A 10 x 7 image cut 4 x 3 (neither grid dimension divides the image),
    at the pixel (9, 7). *)
Lemma sections_tile_image_witness :
  0 < 10 /\ 0 < 7 /\ 0 < 4 /\ 0 < 3 /\
  ((1 <= 9 <= 10 /\ 1 <= 7 <= 7) <->
   exists b, b ∈ sections 10 7 4 3 /\ includes_pos b 9 7 = true) /\
  (forall i j i' j',
      (i, j) ∈ grid 4 3 -> (i', j') ∈ grid 4 3 ->
      includes_pos (sec_bounds 10 7 4 3 i j) 9 7 = true ->
      includes_pos (sec_bounds 10 7 4 3 i' j') 9 7 = true ->
      (i, j) = (i', j')).
Proof.
  do 4 (split; [lia|]). apply (sections_tile_image 10 7 4 3); lia.
Defined.

(** ** The iteration count *)

Lemma pydiv_nonzero a b : ~ (b == 0)%Q -> pydiv a b = Ok (a / b)%Q.
Proof.
  intros Hb. unfold pydiv.
  destruct (Qeq_bool b 0) eqn:E; [|done].
  apply Qeq_bool_iff in E. contradiction.
Qed.

Lemma Qceiling_pos q : (0 < q)%Q -> 1 <= Qceiling q.
Proof.
  intros Hq.
  assert (H : (0 < inject_Z (Qceiling q))%Q).
  { eapply Qlt_le_trans; [exact Hq | apply Qle_ceiling]. }
  change 0%Q with (inject_Z 0) in H. rewrite <- Zlt_Qlt in H. lia.
Qed.



(** ** Pixel arrays *)

Lemma at2_zeros nr nc i j :
  (i < nr)%nat -> (j < nc)%nat -> at2 (zeros nr nc) i j = Some 0%Q.
Proof.
  intros Hi Hj. unfold at2, zeros.
  rewrite lookup_replicate_2 by done. simpl. by rewrite lookup_replicate_2.
Qed.

Lemma at2_slice2 a i1 i2 j1 j2 i j :
  (i < i2 - i1)%nat -> (j < j2 - j1)%nat ->
  at2 (slice2 a i1 i2 j1 j2) i j = at2 a (i1 + i) (j1 + j).
Proof.
  intros Hi Hj. unfold at2, slice2.
  rewrite list_lookup_fmap, lookup_take_lt, lookup_drop by done.
  destruct (a !! (i1 + i)%nat) as [row|]; simpl; [|done].
  by rewrite lookup_take_lt, lookup_drop.
Qed.

Lemma at2_map2 f a b i j :
  at2 (map2 f a b) i j = (v ← at2 a i j; w ← at2 b i j; Some (f v w)).
Proof.
  unfold at2, map2. rewrite lookup_zip_with.
  destruct (a !! i) as [ra|], (b !! i) as [rb|]; simpl; try done.
  - by rewrite lookup_zip_with.
  - by destruct (ra !! j).
Qed.

Lemma lookup_write_row (row s : list Q) j1 j :
  (j1 + length s <= length row)%nat ->
  write_row row j1 s !! j =
  if decide (j1 <= j < j1 + length s)%nat then s !! (j - j1)%nat else row !! j.
Proof.
  intros Hlen. unfold write_row.
  assert (Htake : length (take j1 row) = j1) by (rewrite length_take; lia).
  destruct (decide (j < j1)%nat) as [Hlt|Hge].
  - rewrite lookup_app_l by lia. rewrite lookup_take_lt by done.
    case_decide; [lia|done].
  - rewrite lookup_app_r by lia. rewrite Htake.
    case_decide as Hin.
    + by rewrite lookup_app_l by lia.
    + rewrite lookup_app_r by lia. rewrite lookup_drop. f_equal. lia.
Qed.

Lemma length_write_row (row s : list Q) j1 :
  (j1 + length s <= length row)%nat -> length (write_row row j1 s) = length row.
Proof.
  intros Hlen. unfold write_row.
  rewrite !length_app, length_take, length_drop. lia.
Qed.

Lemma lookup_write_block a i1 j1 s i :
  (i1 + length s <= length a)%nat ->
  write_block a i1 j1 s !! i =
  if decide (i1 <= i < i1 + length s)%nat
  then row ← a !! i; srow ← s !! (i - i1)%nat; Some (write_row row j1 srow)
  else a !! i.
Proof.
  intros Hlen. unfold write_block.
  assert (Htake : length (take i1 a) = i1) by (rewrite length_take; lia).
  assert (Hmid : length (zip_with (fun row srow => write_row row j1 srow)
                           (take (length s) (drop i1 a)) s) = length s).
  { rewrite length_zip_with, length_take, length_drop. lia. }
  destruct (decide (i < i1)%nat) as [Hlt|Hge].
  - rewrite lookup_app_l by lia. rewrite lookup_take_lt by done.
    case_decide; [lia|done].
  - rewrite lookup_app_r by lia. rewrite Htake.
    case_decide as Hin.
    + rewrite lookup_app_l by lia.
      rewrite lookup_zip_with, lookup_take_lt, lookup_drop by lia.
      replace (i1 + (i - i1))%nat with i by lia. done.
    + rewrite lookup_app_r by lia. rewrite Hmid, lookup_drop. f_equal. lia.
Qed.

Lemma length_write_block a i1 j1 s :
  (i1 + length s <= length a)%nat -> length (write_block a i1 j1 s) = length a.
Proof.
  intros Hlen. unfold write_block.
  rewrite !length_app, length_zip_with, !length_take, !length_drop. lia.
Qed.

(** Writing a block of rows of width [w] into an array of width [W]. *)
Lemma at2_write_block a i1 j1 s (w W : nat) i j :
  (i1 + length s <= length a)%nat ->
  (j1 + w <= W)%nat ->
  Forall (fun row => length row = W) a ->
  Forall (fun row => length row = w) s ->
  at2 (write_block a i1 j1 s) i j =
  if decide ((i1 <= i < i1 + length s)%nat /\ (j1 <= j < j1 + w)%nat)
  then at2 s (i - i1) (j - j1)
  else at2 a i j.
Proof.
  intros Hrows Hcols Ha Hs. unfold at2 at 1.
  rewrite lookup_write_block by done.
  destruct (decide (i1 <= i < i1 + length s)%nat) as [Hi|Hi].
  - destruct (lookup_lt_is_Some_2 a i ltac:(lia)) as [row Hrow].
    destruct (lookup_lt_is_Some_2 s (i - i1)%nat ltac:(lia)) as [srow Hsrow].
    assert (Hlr : length row = W) by (eapply Forall_lookup_1 in Ha; eauto).
    assert (Hls : length srow = w) by (eapply Forall_lookup_1 in Hs; eauto).
    rewrite Hrow. simpl. rewrite Hsrow. simpl.
    rewrite lookup_write_row by lia. rewrite Hls.
    unfold at2. rewrite Hrow, Hsrow. simpl.
    destruct (decide (j1 <= j < j1 + w)%nat); case_decide; (done || lia).
  - case_decide; [lia|done].
Qed.

Lemma wf_write_block a i1 j1 s (w W : nat) :
  (i1 + length s <= length a)%nat ->
  (j1 + w <= W)%nat ->
  Forall (fun row => length row = W) a ->
  Forall (fun row => length row = w) s ->
  Forall (fun row => length row = W) (write_block a i1 j1 s).
Proof.
  intros Hrows Hcols Ha Hs. apply Forall_lookup. intros i row Hrow.
  rewrite lookup_write_block in Hrow by done.
  case_decide as Hi.
  - destruct (a !! i) as [r|] eqn:Hr; simpl in Hrow; [|done].
    destruct (s !! (i - i1)%nat) as [sr|] eqn:Hsr; simpl in Hrow; [|done].
    inversion Hrow; subst.
    assert (Hlr : length r = W) by (eapply Forall_lookup_1 in Ha; eauto).
    assert (Hls : length sr = w) by (eapply Forall_lookup_1 in Hs; eauto).
    rewrite length_write_row; lia.
  - eapply Forall_lookup_1 in Ha; eauto.
Qed.

Lemma asum_amap_scale (s : Q) a :
  (asum (amap (fun v => v * s)%Q a) == asum a * s)%Q.
Proof.
  unfold asum, amap.
  induction a as [|row a IH]; simpl.
  - ring.
  - rewrite !foldr_app. 
    induction row as [|v row IHrow]; simpl.
    + exact IH.
    + rewrite IHrow. ring.
Qed.

Lemma asize_amap f a : asize (amap f a) = asize a.
Proof.
  unfold asize, amap. induction a as [|row a IH]; simpl; [done|].
  rewrite !length_app, length_fmap. f_equal. exact IH.
Qed.

(** ** Images and sub-images *)

Section Images.
Context {WCS : Type}.
Implicit Types (im image section : Image WCS) (b sec : BoundsI).

Lemma numpyShape_defined b :
  isDefined b = true ->
  numpyShape b = (Z.to_nat (ymax b - ymin b + 1), Z.to_nat (xmax b - xmin b + 1)).
Proof. intros H. unfold numpyShape. by rewrite H. Qed.

Lemma wf_shape b a : wf_array b a -> shape a = numpyShape b.
Proof.
  intros [Hlen Hrows]. unfold shape. destruct a as [|row a]; simpl in *.
  - unfold numpyShape in *. destruct (isDefined b) eqn:Hb; [|done].
    apply isDefined_spec in Hb. simpl in Hlen. lia.
  - apply Forall_cons in Hrows as [Hrow _]. rewrite Hlen, Hrow.
    by destruct (numpyShape b).
Qed.

Lemma wf_map2 f b a1 a2 :
  wf_array b a1 -> wf_array b a2 -> wf_array b (map2 f a1 a2).
Proof.
  intros [Hl1 Hr1] [Hl2 Hr2]. split.
  - unfold map2. rewrite length_zip_with. lia.
  - apply Forall_lookup. intros i row Hrow. unfold map2 in Hrow.
    apply lookup_zip_with_Some in Hrow as (r1 & r2 & -> & H1 & H2).
    pose proof (Forall_lookup_1 _ _ _ _ Hr1 H1) as Hlen1.
    pose proof (Forall_lookup_1 _ _ _ _ Hr2 H2) as Hlen2.
    simpl in *. rewrite length_zip_with. lia.
Qed.

Lemma wf_ImageF_bounds b (w : WCS) : wf_image (ImageF_bounds b w).
Proof.
  split; simpl; unfold zeros.
  - by rewrite length_replicate.
  - apply Forall_replicate. by rewrite length_replicate.
Qed.

Lemma getValue_wf im x y :
  wf_image im -> includes_pos (bounds im) x y = true ->
  is_Some (getValue im x y).
Proof.
  intros [Hlen Hrows] Hin. unfold getValue. rewrite Hin.
  apply includes_pos_spec in Hin.
  rewrite numpyShape_defined in Hlen, Hrows by (apply isDefined_spec; lia).
  simpl in Hlen, Hrows. unfold at2.
  destruct (lookup_lt_is_Some_2 (array im) (Z.to_nat (y - ymin (bounds im)))
              ltac:(lia)) as [row Hrow].
  rewrite Hrow. simpl. apply lookup_lt_is_Some_2.
  eapply Forall_lookup_1 in Hrows; eauto. simpl in Hrows. lia.
Qed.

(** A sub-image inside a well-formed image: it exists, is well formed,
    and shows the pixels of the image at the same coordinates. *)
Lemma subImage_spec im b :
  wf_image im -> includes (bounds im) b = true ->
  exists v,
    subImage im b = Ok v /\ bounds v = b /\ wcs v = wcs im /\ wf_image v /\
    forall x y, includes_pos b x y = true -> getValue v x y = getValue im x y.
Proof.
  intros [Hlen Hrows] Hinc.
  assert (Hinc' := Hinc). apply includes_spec in Hinc'.
  assert (Hdef : isDefined (bounds im) = true) by (apply isDefined_spec; lia).
  assert (Hdefb : isDefined b = true) by (apply isDefined_spec; lia).
  rewrite numpyShape_defined in Hlen, Hrows by done. simpl in Hlen, Hrows.
  unfold subImage. rewrite Hdef, Hinc. simpl.
  eexists. split; [reflexivity|]. split; [done|]. split; [done|]. split.
  - unfold wf_image, wf_array. simpl. rewrite numpyShape_defined by done. simpl.
    unfold slice2. split.
    + rewrite length_fmap, length_take, length_drop. lia.
    + apply Forall_fmap, Forall_lookup. intros i row Hrow. simpl.
      apply lookup_take_Some in Hrow as [Hrow _]. rewrite lookup_drop in Hrow.
      eapply Forall_lookup_1 in Hrows; eauto. simpl in Hrows.
      rewrite length_take, length_drop. lia.
  - intros x y Hxy. unfold getValue. simpl. rewrite Hxy.
    apply includes_pos_spec in Hxy.
    assert (Hxy' : includes_pos (bounds im) x y = true)
      by (apply includes_pos_spec; lia).
    rewrite Hxy'. rewrite at2_slice2 by lia. f_equal; lia.
Qed.

(** [image[sec] += section[sec]] adds the section pixel by pixel inside
    [sec] and leaves every other pixel of [image] alone. *)
Lemma iadd_sub_spec image sec section :
  wf_image image -> wf_image section ->
  includes (bounds image) sec = true -> includes (bounds section) sec = true ->
  exists image',
    iadd_sub image sec section = Ok image' /\
    bounds image' = bounds image /\ wcs image' = wcs image /\
    wf_image image' /\
    (forall x y, includes_pos sec x y = true ->
       exists v w, getValue image x y = Some v /\
                   getValue section x y = Some w /\
                   getValue image' x y = Some (v + w)%Q) /\
    (forall x y, includes_pos sec x y = false ->
       getValue image' x y = getValue image x y).
Proof.
  intros Hwi Hws Hii His.
  destruct (subImage_spec image sec Hwi Hii) as (view & Hview & Hbv & _ & Hwv & Hpv).
  destruct (subImage_spec section sec Hws His) as (rhs & Hrhs & Hbr & _ & Hwr & Hpr).
  assert (Hinc := Hii). apply includes_spec in Hinc.
  assert (Hdefi : isDefined (bounds image) = true) by (apply isDefined_spec; lia).
  assert (Hdefs : isDefined sec = true) by (apply isDefined_spec; lia).
  unfold wf_image in Hwv, Hwr. rewrite Hbv in Hwv. rewrite Hbr in Hwr.
  assert (Hsum := wf_map2 Qplus sec _ _ Hwv Hwr).
  unfold iadd_sub. rewrite Hview, Hrhs. simpl.
  unfold iadd, iop.
  rewrite (wf_shape sec (array view) Hwv), (wf_shape sec (array rhs) Hwr).
  rewrite bool_decide_true by done. simpl.
  unfold setSubImage. rewrite Hview. simpl. rewrite bool_decide_true by done.
  destruct Hwi as [Hli Hri], Hsum as [Hlsum Hrsum].
  rewrite numpyShape_defined in Hli, Hri, Hlsum, Hrsum by done.
  simpl in Hli, Hri, Hlsum, Hrsum.
  eexists. split; [reflexivity|]. split; [done|]. split; [done|]. split; [|split].
  - unfold wf_image, wf_array. simpl. rewrite numpyShape_defined by done. simpl.
    split.
    + rewrite length_write_block; lia.
    + eapply wf_write_block; eauto; lia.
  - intros x y Hxy.
    assert (Hxy' := Hxy). apply includes_pos_spec in Hxy'.
    assert (Hxyi : includes_pos (bounds image) x y = true)
      by (apply includes_pos_spec; lia).
    destruct (getValue_wf view x y) as [v Hv];
      [unfold wf_image; by rewrite Hbv|by rewrite Hbv|].
    destruct (getValue_wf rhs x y) as [w Hw];
      [unfold wf_image; by rewrite Hbr|by rewrite Hbr|].
    exists v, w. rewrite <- (Hpv x y Hxy), <- (Hpr x y Hxy). split; [done|]. split; [done|].
    unfold getValue in Hv, Hw |- *. rewrite Hbv, Hxy in Hv. rewrite Hbr, Hxy in Hw.
    simpl. rewrite Hxyi.
    erewrite at2_write_block; [|lia| |exact Hri|exact Hrsum]; [|lia].
    rewrite decide_True by lia. rewrite at2_map2.
    replace (Z.to_nat (y - ymin (bounds image)) - Z.to_nat (ymin sec - ymin (bounds image)))%nat
      with (Z.to_nat (y - ymin sec)) by lia.
    replace (Z.to_nat (x - xmin (bounds image)) - Z.to_nat (xmin sec - xmin (bounds image)))%nat
      with (Z.to_nat (x - xmin sec)) by lia.
    rewrite Hv. simpl. rewrite Hw. done.
  - intros x y Hxy. unfold getValue. simpl.
    destruct (includes_pos (bounds image) x y) eqn:Hxyi; [|done].
    apply includes_pos_spec in Hxyi.
    erewrite at2_write_block; [|lia| |exact Hri|exact Hrsum]; [|lia].
    rewrite decide_False; [done|].
    intros [Hy Hx].
    assert (includes_pos sec x y = true); [|congruence].
    apply includes_pos_spec. lia.
Qed.
End Images.

(** ** The loops over sections *)

Lemma bind_ext {S A B : Type} (m1 m2 : M S A) (f1 f2 : A -> M S B) :
  (forall s, m1 s = m2 s) -> (forall a s, f1 a s = f2 a s) ->
  forall s, (m1 ≫= f1) s = (m2 ≫= f2) s.
Proof.
  intros Hm Hf s. unfold mbind, M_bind. rewrite Hm.
  destruct (m2 s) as [s' [a|e]]; [apply Hf|done].
Qed.

Lemma for_ext {S A : Type} (xs : list A) (f g : A -> M S unit) :
  (forall x s, f x s = g x s) -> forall s, for_ xs f s = for_ xs g s.
Proof.
  intros Hfg. induction xs as [|x xs IH]; intros s; simpl; [done|].
  apply bind_ext; [apply Hfg|]. intros _. apply IH.
Qed.

Lemma for_acc_ext {S A B : Type} (xs : list A) (f g : B -> A -> M S B) :
  (forall b x s, f b x s = g b x s) ->
  forall b s, for_acc xs f b s = for_acc xs g b s.
Proof.
  intros Hfg. induction xs as [|x xs IH]; intros b s; simpl; [done|].
  apply bind_ext; [apply Hfg|]. intros b'. apply IH.
Qed.

Lemma for_app {S A : Type} (xs ys : list A) (f : A -> M S unit) (s : S) :
  for_ (xs ++ ys) f s = (for_ xs f ;; for_ ys f) s.
Proof.
  revert s. induction xs as [|x xs IH]; intros s; simpl; [done|].
  unfold mbind, M_bind in *.
  destruct (f x s) as [s1 [[]|e]]; [|done]. apply IH.
Qed.

Lemma for_row {S : Type} (i : Z) (ys : list Z) (f : Z * Z -> M S unit) (s : S) :
  for_ (j ← ys; [(i, j)]) f s = for_ ys (fun j => f (i, j)) s.
Proof.
  revert s. induction ys as [|y ys IH]; intros s; simpl; [done|].
  apply bind_ext; [done|]. intros _. apply IH.
Qed.

(** The two nested loops of [addNoise] visit the pairs of [grid nx ny], in
    that order: the sections they work on are those of [sections]. *)
Lemma for_grid {S : Type} (nx ny : Z) (body : Z -> Z -> M S unit) (s : S) :
  for_ (range nx) (fun i => for_ (range ny) (fun j => body i j)) s
  = for_ (grid nx ny) (fun ij => body ij.1 ij.2) s.
Proof.
  unfold grid. generalize (range nx) as xs. intros xs. revert s.
  induction xs as [|x xs IH]; intros s; simpl; [done|].
  rewrite for_app. apply bind_ext.
  - intros s0. by rewrite for_row.
  - intros _. apply IH.
Qed.

Lemma floordiv_nonzero a b : b <> 0 -> floordiv a b = Ok (a / b).
Proof. intros Hb. unfold floordiv. by destruct (Z.eqb_spec b 0). Qed.

(** [merge_section] on well-formed images whose bounds include [sec]. *)
Lemma merge_section_spec {WCS RNG Sensor : Type}
    (s : State WCS RNG Sensor) (sec : BoundsI) (section : Image WCS) :
  wf_image (st_image s) -> wf_image section ->
  includes (bounds (st_image s)) sec = true ->
  includes (bounds section) sec = true ->
  exists s',
    merge_section sec section s = (s', Ok tt) /\
    wf_image (st_image s') /\
    bounds (st_image s') = bounds (st_image s) /\
    (forall x y, includes_pos sec x y = false ->
       getValue (st_image s') x y = getValue (st_image s) x y).
Proof.
  intros Hwi Hws Hii His.
  destruct (iadd_sub_spec (st_image s) sec section Hwi Hws Hii His)
    as (image' & Hadd & Hb & Hw & Hwf & Hin & Hout).
  assert (Hii' : includes (bounds image') sec = true) by by rewrite Hb.
  destruct (subImage_spec image' sec Hwf Hii') as (view & Hview & _).
  unfold merge_section, mbind, M_bind, get, lift, set_image, modify, log.
  rewrite Hadd. simpl. rewrite Hview. simpl.
  eexists. split; [reflexivity|]. simpl. auto.
Qed.

Lemma iteration_plan_ok (counts_per_pixel max_counts_per_iter : Q) :
  (0 < counts_per_pixel)%Q -> (0 < max_counts_per_iter)%Q ->
  exists niter counts_per_iter,
    iteration_plan counts_per_pixel max_counts_per_iter
    = Ok (niter, counts_per_iter).
Proof.
  intros Hc Hm. unfold iteration_plan.
  rewrite pydiv_nonzero by (intros H; rewrite H in Hm; by apply Qlt_irrefl in Hm).
  simpl. rewrite pydiv_nonzero; [eauto|].
  assert (Hr : (0 < counts_per_pixel / max_counts_per_iter)%Q).
  { unfold Qdiv. apply Qmult_lt_0_compat; [done|]. by apply Qinv_lt_0_compat. }
  apply Qceiling_pos in Hr.
  change 0%Q with (inject_Z 0). rewrite inject_Z_injective. lia.
Qed.

(** ** Runs of the model *)

(** A 4 x 2 flat in two sections and two iterations: without an SED, with
    one, and on a grid finer than the image, whose empty sections GalSim
    rejects. *)
Example run_mean_level :
  (addNoise toy (toy_builder None) toy_image (toy_base None) 0 0 0%Q 7 []).2
  = Ok tt.
Proof. vm_compute. reflexivity. Qed.

Example run_photons :
  let out := addNoise toy (toy_builder (Some tt)) toy_image (toy_base (Some tt))
                      0 0 0%Q 7 [] in
  out.2 = Ok tt /\
  array (st_image out.1) = [[2; 0; 1; 0]; [2; 1; 2; 2]]%Q.
Proof. vm_compute. split; reflexivity. Qed.

Example run_grid_too_fine :
  (addNoise toy (mkBuilder 3%Q 4 2 1 2%Q None 5 1) toy_image (toy_base None)
            0 0 0%Q 7 []).2
  = Raise GalSimBoundsError.
Proof. vm_compute. reflexivity. Qed.

(** ** Merging a section into the output image *)

(** C3. Merging a completed section (lines 204-206) changes the output
    image only inside the section's un-expanded bounds [sec]: there the new
    pixel is the old pixel plus the accumulator's pixel at the same
    coordinates, and every pixel outside [sec] keeps its value; so nothing
    of the accumulator's buffer margin reaches the output.  The random
    stream and the sensor are not touched. *)
Theorem merge_section_interior {WCS RNG Sensor : Type}
    (s : State WCS RNG Sensor) (sec : BoundsI) (section : Image WCS) :
  wf_image (st_image s) -> wf_image section ->
  includes (bounds (st_image s)) sec = true ->
  includes (bounds section) sec = true ->
  exists s',
    merge_section sec section s = (s', Ok tt) /\
    st_rng s' = st_rng s /\ st_sensor s' = st_sensor s /\
    bounds (st_image s') = bounds (st_image s) /\
    wf_image (st_image s') /\
    (forall x y, includes_pos sec x y = true ->
       exists v w, getValue (st_image s) x y = Some v /\
                   getValue section x y = Some w /\
                   getValue (st_image s') x y = Some (v + w)%Q) /\
    (forall x y, includes_pos sec x y = false ->
       getValue (st_image s') x y = getValue (st_image s) x y).
Proof.
  intros Hwi Hws Hii His.
  destruct (iadd_sub_spec (st_image s) sec section Hwi Hws Hii His)
    as (image' & Hadd & Hb & Hw & Hwf & Hin & Hout).
  assert (Hii' : includes (bounds image') sec = true) by by rewrite Hb.
  destruct (subImage_spec image' sec Hwf Hii') as (view & Hview & _).
  unfold merge_section, mbind, M_bind, get, lift, set_image, modify, log.
  rewrite Hadd. simpl. rewrite Hview. simpl.
  eexists. split; [reflexivity|]. simpl. auto 10.
Qed.

Lemma merge_section_interior_witness :
  wf_image (st_image toy_state) /\ wf_image toy_section /\
  includes (bounds (st_image toy_state)) (mkBoundsI 1 2 1 2) = true /\
  includes (bounds toy_section) (mkBoundsI 1 2 1 2) = true /\
  exists s',
    merge_section (mkBoundsI 1 2 1 2) toy_section toy_state = (s', Ok tt) /\
    st_rng s' = st_rng toy_state /\ st_sensor s' = st_sensor toy_state /\
    bounds (st_image s') = bounds (st_image toy_state) /\
    wf_image (st_image s') /\
    (forall x y, includes_pos (mkBoundsI 1 2 1 2) x y = true ->
       exists v w, getValue (st_image toy_state) x y = Some v /\
                   getValue toy_section x y = Some w /\
                   getValue (st_image s') x y = Some (v + w)%Q) /\
    (forall x y, includes_pos (mkBoundsI 1 2 1 2) x y = false ->
       getValue (st_image s') x y = getValue (st_image toy_state) x y).
Proof.
  assert (H1 : wf_image (st_image toy_state))
    by (split; [reflexivity|repeat constructor]).
  assert (H2 : wf_image toy_section)
    by (split; [reflexivity|repeat constructor]).
  split; [exact H1|]. split; [exact H2|].
  split; [reflexivity|]. split; [reflexivity|].
  apply (merge_section_interior toy_state (mkBoundsI 1 2 1 2) toy_section H1 H2);
    reflexivity.
Defined.

(** ** The blank image *)

(** C9. For positive sizes, [buildImage] returns an image with bounds
    [1..xsize] x [1..ysize], an array of [ysize] rows by [xsize] columns,
    every pixel zero, carrying the coordinate mapping of [base], together
    with a noise variance of 0; and [getNObj] is 0 whatever its
    arguments. *)
Theorem buildImage_blank {WCS Sensor SED Bandpass : Type}
    (self : Builder SED) (base : Base WCS Sensor Bandpass) (w : WCS) :
  base_wcs base = Some w -> 0 < xsize self -> 0 < ysize self ->
  exists image base',
    buildImage self base = Ok (image, 0, base') /\
    bounds image = mkBoundsI 1 (xsize self) 1 (ysize self) /\
    shape (array image) = (Z.to_nat (ysize self), Z.to_nat (xsize self)) /\
    wf_image image /\
    (forall x y, 1 <= x <= xsize self -> 1 <= y <= ysize self ->
       getValue image x y = Some 0%Q) /\
    (forall row v, row ∈ array image -> v ∈ row -> v = 0%Q) /\
    wcs image = w /\
    base_image_type base' = Some "FLAT"%string /\
    (forall config (base0 : Base WCS Sensor Bandpass) image_num,
       getNObj self config base0 image_num = 0).
Proof.
  intros Hw Hx Hy. unfold buildImage, ImageF_size. rewrite Hw.
  destruct (Z.ltb_spec (xsize self) 0); [lia|].
  destruct (Z.ltb_spec (ysize self) 0); [lia|]. simpl.
  set (b := mkBoundsI 1 (xsize self) 1 (ysize self)).
  assert (Hdef : isDefined b = true) by (apply isDefined_spec; simpl; lia).
  assert (Hwf : wf_array b (zeros (Z.to_nat (ysize self)) (Z.to_nat (xsize self)))).
  { unfold wf_array, zeros. rewrite numpyShape_defined by done. simpl. split.
    - rewrite length_replicate. lia.
    - apply Forall_replicate. rewrite length_replicate. lia. }
  eexists _, _. split; [reflexivity|]. simpl.
  split; [done|]. split; [|split; [exact Hwf|split; [|split]]].
  - rewrite (wf_shape b _ Hwf), numpyShape_defined by done. simpl.
    f_equal; lia.
  - intros x y Hxr Hyr. unfold getValue. simpl.
    replace (includes_pos b x y) with true
      by (symmetry; apply includes_pos_spec; simpl; lia).
    apply at2_zeros; lia.
  - intros row v Hrow Hv. unfold zeros in Hrow.
    apply elem_of_replicate in Hrow as [-> _].
    by apply elem_of_replicate in Hv as [-> _].
  - done.
Qed.

Lemma buildImage_blank_witness :
  base_wcs (toy_base None) = Some 1%Q /\
  0 < xsize (toy_builder None) /\ 0 < ysize (toy_builder None) /\
  exists image base',
    buildImage (toy_builder None) (toy_base None) = Ok (image, 0, base') /\
    bounds image = mkBoundsI 1 4 1 2 /\
    shape (array image) = (2%nat, 4%nat) /\
    wf_image image /\
    (forall x y, 1 <= x <= 4 -> 1 <= y <= 2 -> getValue image x y = Some 0%Q) /\
    (forall row v, row ∈ array image -> v ∈ row -> v = 0%Q) /\
    wcs image = 1%Q /\
    base_image_type base' = Some "FLAT"%string /\
    (forall config (base0 : Base Q bool unit) image_num,
       getNObj (toy_builder None) config base0 image_num = 0).
Proof.
  split; [reflexivity|]. split; [reflexivity|]. split; [reflexivity|].
  apply (buildImage_blank (toy_builder None) (toy_base None) 1%Q); reflexivity.
Defined.

(** ** The base image *)

Lemma mean_rescale {WCS : Type} (base_image : Image WCS) (c : Q) :
  ~ (mean (array base_image) == 0)%Q ->
  (mean (array (rescale base_image c)) == c)%Q.
Proof.
  intros Hm. unfold rescale, imul_scalar. simpl.
  set (a := array base_image) in *.
  unfold mean in *. rewrite asize_amap, asum_amap_scale.
  set (n := inject_Z (Z.of_nat (asize a))) in *.
  assert (Hn : ~ (n == 0)%Q).
  { intros H. apply Hm. rewrite H. unfold Qdiv. 
    change (/ 0)%Q with 0%Q. ring. }
  assert (Hs : ~ (asum a == 0)%Q).
  { intros H. apply Hm. rewrite H. unfold Qdiv. ring. }
  field. auto.
Qed.



(** ** The expected increment of an iteration *)

(** C10. Without an SED, when the sensor returns a plain number for the
    pixel areas, the expectation image of the iteration is the slice of
    the base image over the expanded bounds, pixel for pixel, with no
    re-weighting; and that slice is what the noise routine is handed. *)
Theorem scalar_area_skips_reweighting {WCS RNG Sensor SED Bandpass : Type}
    (E : Ext WCS RNG Sensor SED Bandpass) (sensor : Sensor)
    (section base_image : Image WCS) (bnds : BoundsI) (a : Q) :
  calculate_pixel_areas E sensor section = AreaScalar a ->
  expected_increment E sensor section base_image bnds = subImage base_image bnds /\
  (wf_image base_image -> includes (bounds base_image) bnds = true ->
   exists temp,
     expected_increment E sensor section base_image bnds = Ok temp /\
     bounds temp = bnds /\
     forall x y, includes_pos bnds x y = true ->
                 getValue temp x y = getValue base_image x y) /\
  (forall base sec s temp,
     st_sensor s = sensor ->
     subImage base_image bnds = Ok temp ->
     mean_level_iteration E base base_image sec bnds section s =
     (let '(noisy, r) := AddNoise E base temp 0%Q (st_rng s) in
      set_rng r;;
      section' ← lift (iadd section (with_array temp noisy));
      view ← lift (subImage section' sec);
      log DEBUG "mean level => %s" [AFloat (mean (array view))];;
      mret section') s).
Proof.
  intros Harea.
  assert (Hexp : expected_increment E sensor section base_image bnds
                 = subImage base_image bnds).
  { unfold expected_increment. rewrite Harea.
    by destruct (subImage base_image bnds). }
  split; [exact Hexp|split].
  - intros Hwf Hinc. rewrite Hexp.
    destruct (subImage_spec base_image bnds Hwf Hinc) as (v & Hv & Hb & _ & _ & Hp).
    eauto.
  - intros base sec s temp Hs Htemp.
    unfold mean_level_iteration.
    unfold mbind at 1, M_bind at 1, get. 
    unfold mbind at 1, M_bind at 1, lift at 1.
    rewrite Hs, Hexp, Htemp. reflexivity.
Qed.

Lemma scalar_area_skips_reweighting_witness :
  calculate_pixel_areas toy false (ImageF_bounds (mkBoundsI 0 3 0 3) 1%Q)
  = AreaScalar 1%Q /\
  expected_increment toy false
    (ImageF_bounds (mkBoundsI 0 3 0 3) 1%Q)
    (make_base_image toy (toy_builder None) toy_image (3 # 2))
    (mkBoundsI 0 3 0 3)
  = subImage (make_base_image toy (toy_builder None) toy_image (3 # 2))
             (mkBoundsI 0 3 0 3).
Proof.
  split; [reflexivity|].
  apply (scalar_area_skips_reweighting toy false
           (ImageF_bounds (mkBoundsI 0 3 0 3) 1%Q)
           (make_base_image toy (toy_builder None) toy_image (3 # 2))
           (mkBoundsI 0 3 0 3) 1%Q).
  reflexivity.
Defined.

(** ** The missing bandpass *)

(** C4. With an SED on the builder and no bandpass in [base], [addNoise]
    raises before the loops over sections start: the output image, the
    random stream and the sensor are exactly as they were on entry (so a
    blank image is still blank), and the log holds at most the record that
    announces the iteration count.  The exception is the [RuntimeError] of
    line 133 whenever the iteration count itself could be computed. *)
Theorem sed_without_bandpass_fails {WCS RNG Sensor SED Bandpass : Type}
    (E : Ext WCS RNG Sensor SED Bandpass) (self : Builder SED)
    (image : Image WCS) (base : Base WCS Sensor Bandpass)
    (image_num obj_num : Z) (current_var : Q) (rng : RNG)
    (logger : list LogRecord) (s : SED) :
  sed self = Some s -> base_bandpass base = None ->
  exists e logger',
    addNoise E self image base image_num obj_num current_var rng logger
    = (mkState image rng (default (trivial_sensor E) (base_sensor base)) logger',
       Raise e) /\
    (logger' = logger \/
     exists niter counts_per_iter,
       logger' = logger ++
         [mkLog INFO "Making flat: niter = %d, counts_per_iter = %d"
                [AInt niter; AFloat counts_per_iter]]) /\
    (forall plan,
       iteration_plan (counts_per_pixel self) (max_counts_per_iter self) = Ok plan ->
       e = RuntimeError "Using sed with flat builder requires a valid bandpass").
Proof.
  intros Hsed Hbp. unfold addNoise, addNoise_body.
  unfold mbind at 1, M_bind at 1, lift at 1.
  destruct (iteration_plan (counts_per_pixel self) (max_counts_per_iter self))
    as [[niter cpi]|e] eqn:Hplan.
  - unfold mbind at 1, M_bind at 1, log at 1, modify at 1.
    unfold mbind at 1, M_bind at 1, get at 1. simpl st_image.
    destruct (shape (array image)) as [nrow ncol].
    unfold mbind at 1, M_bind at 1, lift at 1.
    unfold wavelength_sampler. rewrite Hsed, Hbp.
    eexists _, _. split; [reflexivity|]. split; [|done].
    right. eauto.
  - eexists _, _. split; [reflexivity|]. split; [by left|done].
Qed.

Lemma sed_without_bandpass_fails_witness :
  sed (toy_builder (Some tt)) = Some tt /\
  base_bandpass (toy_base None) = None /\
  exists e logger',
    addNoise toy (toy_builder (Some tt)) toy_image (toy_base None) 0 0 0%Q 7 []
    = (mkState toy_image 7
               (default (trivial_sensor toy) (base_sensor (toy_base None)))
               logger',
       Raise e) /\
    (logger' = [] \/
     exists niter counts_per_iter,
       logger' = [] ++
         [mkLog INFO "Making flat: niter = %d, counts_per_iter = %d"
                [AInt niter; AFloat counts_per_iter]]) /\
    (forall plan,
       iteration_plan (counts_per_pixel (toy_builder (Some tt)))
                      (max_counts_per_iter (toy_builder (Some tt))) = Ok plan ->
       e = RuntimeError "Using sed with flat builder requires a valid bandpass").
Proof.
  split; [reflexivity|]. split; [reflexivity|].
  apply (sed_without_bandpass_fails toy (toy_builder (Some tt)) toy_image
           (toy_base None) 0 0 0%Q 7 [] tt); reflexivity.
Defined.

(** ** Photon shooting *)

Section Photons.
Context {WCS RNG Sensor SED Bandpass : Type}.
Variable E : Ext WCS RNG Sensor SED Bandpass.

Lemma generate_length n r : length (generate E n r).1 = n.
Proof.
  revert r. induction n as [|n IH]; intros r; simpl; [done|].
  destruct (UniformDeviate E r) as [u r1].
  specialize (IH r1). destruct (generate E n r1) as [us r2].
  simpl in *. by rewrite IH.
Qed.

Lemma generate_Forall (P : Q -> Prop) n r :
  (forall r0, P (UniformDeviate E r0).1) -> Forall P (generate E n r).1.
Proof.
  intros HP. revert r. induction n as [|n IH]; intros r; simpl; [constructor|].
  specialize (HP r). destruct (UniformDeviate E r) as [u r1].
  specialize (IH r1). destruct (generate E n r1) as [us r2].
  simpl in *. by constructor.
Qed.
End Photons.

Lemma place_range (lo hi : Z) (u : Q) :
  lo <= hi -> (0 <= u < 1)%Q ->
  (inject_Z lo - (1 # 2) <= place lo hi u < inject_Z hi + (1 # 2))%Q.
Proof.
  intros Hlh [Hu0 Hu1]. unfold place.
  assert (Hw : (inject_Z (hi - lo + 1) == inject_Z hi - inject_Z lo + 1)%Q).
  { rewrite inject_Z_plus. unfold Z.sub. rewrite inject_Z_plus, inject_Z_opp.
    reflexivity. }
  assert (Hpos : (0 < inject_Z (hi - lo + 1))%Q).
  { change 0%Q with (inject_Z 0). rewrite <- Zlt_Qlt. lia. }
  set (w := inject_Z (hi - lo + 1)) in *.
  assert (H0 : (0 <= u * w)%Q) by (apply Qmult_le_0_compat; [done|by apply Qlt_le_weak]).
  assert (H1 : (u * w < 1 * w)%Q) by (by apply Qmult_lt_compat_r).
  clearbody w. split; nra.
Qed.


Lemma toy_uniform_range (r : Z) : (0 <= (toy_uniform r).1 < 1)%Q.
Proof.
  unfold toy_uniform. simpl.
  pose proof (Z.mod_pos_bound r 16 ltac:(lia)) as Hr.
  split.
  - apply Qle_shift_div_l; [reflexivity|].
    change (0 * 16)%Q with (inject_Z 0). rewrite <- Zle_Qle. lia.
  - apply Qlt_shift_div_r; [reflexivity|].
    change (1 * 16)%Q with (inject_Z 16). rewrite <- Zlt_Qlt. lia.
Qed.


(** ** The defaults of [setup] *)

(** C8. When [GetAllParams] and (if the configuration has an SED)
    [BuildSED] succeed and the sensor entry, if any, is a dict, [setup]
    succeeds and returns [(xsize, ysize)]; [max_counts_per_iter] is the
    parameter or else 1000, [buffer_size] the parameter or else 2, [nx] and
    [ny] the parameters or else 8 and 2 without an SED and 16 and 16 with
    one; and a sensor entry without ["nrecalc"] receives
    [max_counts_per_iter * xsize * ysize] under that key, while one that
    has the key, or a configuration without a sensor, is left as it is. *)
Theorem setup_defaults {WCS Sensor SED Bandpass : Type}
    (GetAllParams : gmap string Value -> Base WCS Sensor Bandpass ->
                    list (string * pytype) -> list (string * pytype) ->
                    list string -> result Params)
    (BuildSED : gmap string Value -> string -> Base WCS Sensor Bandpass ->
                result SED)
    (config : gmap string Value) (base : Base WCS Sensor Bandpass)
    (image_num obj_num : Z) (ignore : list string) (logger : list LogRecord)
    (params : Params) (built : option SED) :
  GetAllParams config base req opt (ignore ++ ["sed"%string]) = Ok params ->
  match config !! "sed"%string with
  | Some _ => exists s, BuildSED config "sed"%string base = Ok s /\ built = Some s
  | None => built = None
  end ->
  (config !! "sensor"%string = None \/
   exists d, config !! "sensor"%string = Some (VDict d)) ->
  exists self config' logger',
    setup GetAllParams BuildSED config base image_num obj_num ignore logger
    = Ok (self, config', logger', (p_xsize params, p_ysize params)) /\
    counts_per_pixel self = p_counts_per_pixel params /\
    xsize self = p_xsize params /\
    ysize self = p_ysize params /\
    max_counts_per_iter self = default 1000%Q (p_max_counts_per_iter params) /\
    buffer_size self = default 2 (p_buffer_size params) /\
    sed self = built /\
    nx self = default (match built with Some _ => 16 | None => 8 end) (p_nx params) /\
    ny self = default (match built with Some _ => 16 | None => 2 end) (p_ny params) /\
    (forall d, config !! "sensor"%string = Some (VDict d) ->
               d !! "nrecalc"%string = None ->
       config' =
       <["sensor"%string :=
           VDict (<["nrecalc"%string :=
                      VNum (max_counts_per_iter self * inject_Z (xsize self)
                            * inject_Z (ysize self))%Q]> d)]> config) /\
    (forall d v, config !! "sensor"%string = Some (VDict d) ->
                 d !! "nrecalc"%string = Some v -> config' = config) /\
    (config !! "sensor"%string = None -> config' = config).
Proof.
  intros Hparams Hsed Hsensor. unfold setup. rewrite Hparams. simpl.
  assert (Hn : forall nrecalc lg, exists config' logger',
             set_nrecalc config nrecalc lg = Ok (config', logger') /\
             (forall d, config !! "sensor"%string = Some (VDict d) ->
                        d !! "nrecalc"%string = None ->
                config' = <["sensor"%string :=
                    VDict (<["nrecalc"%string := VNum nrecalc]> d)]> config) /\
             (forall d v, config !! "sensor"%string = Some (VDict d) ->
                          d !! "nrecalc"%string = Some v -> config' = config) /\
             (config !! "sensor"%string = None -> config' = config)).
  { intros nrecalc lg. unfold set_nrecalc.
    destruct Hsensor as [Hnone | [d Hd]].
    - rewrite Hnone. eexists _, _. split; [reflexivity|]. by repeat split.
    - rewrite Hd. destruct (d !! "nrecalc"%string) as [v|] eqn:Hv.
      + eexists _, _. split; [reflexivity|]. repeat split; try done.
        intros d' Hd' Hnone. congruence.
      + eexists _, _. split; [reflexivity|]. repeat split; try done.
        * intros d' Hd' _. congruence.
        * intros d' v Hd' Hv'. congruence. }
  destruct (config !! "sed"%string) as [v|].
  - destruct Hsed as (s & Hs & ->). rewrite Hs. simpl.
    match goal with |- context [set_nrecalc config ?q ?l] =>
      destruct (Hn q l) as (config' & logger' & Hrun & H1 & H2 & H3) end.
    rewrite Hrun. simpl. eexists _, _, _. split; [reflexivity|]. simpl.
    repeat split; auto.
  - subst built. simpl.
    match goal with |- context [set_nrecalc config ?q ?l] =>
      destruct (Hn q l) as (config' & logger' & Hrun & H1 & H2 & H3) end.
    rewrite Hrun. simpl. eexists _, _, _. split; [reflexivity|]. simpl.
    repeat split; auto.
Qed.

Lemma setup_defaults_witness :
  toy_GetAllParams toy_config (toy_base None) req opt ([] ++ ["sed"%string])
  = Ok toy_params /\
  match toy_config !! "sed"%string with
  | Some _ => exists s, toy_BuildSED toy_config "sed"%string (toy_base None) = Ok s
                        /\ None = Some s
  | None => @None unit = None
  end /\
  (toy_config !! "sensor"%string = None \/
   exists d, toy_config !! "sensor"%string = Some (VDict d)) /\
  exists self config' logger',
    setup toy_GetAllParams toy_BuildSED toy_config (toy_base None) 0 0 [] []
    = Ok (self, config', logger', (p_xsize toy_params, p_ysize toy_params)) /\
    counts_per_pixel self = p_counts_per_pixel toy_params /\
    xsize self = p_xsize toy_params /\
    ysize self = p_ysize toy_params /\
    max_counts_per_iter self = default 1000%Q (p_max_counts_per_iter toy_params) /\
    buffer_size self = default 2 (p_buffer_size toy_params) /\
    sed self = None /\
    nx self = default 8 (p_nx toy_params) /\
    ny self = default 2 (p_ny toy_params) /\
    (forall d, toy_config !! "sensor"%string = Some (VDict d) ->
               d !! "nrecalc"%string = None ->
       config' =
       <["sensor"%string :=
           VDict (<["nrecalc"%string :=
                      VNum (max_counts_per_iter self * inject_Z (xsize self)
                            * inject_Z (ysize self))%Q]> d)]> toy_config) /\
    (forall d v, toy_config !! "sensor"%string = Some (VDict d) ->
                 d !! "nrecalc"%string = Some v -> config' = toy_config) /\
    (toy_config !! "sensor"%string = None -> config' = toy_config).
Proof.
  assert (H3 : toy_config !! "sensor"%string = None \/
               exists d, toy_config !! "sensor"%string = Some (VDict d))
    by (right; eexists; reflexivity).
  split; [reflexivity|]. split; [reflexivity|]. split; [exact H3|].
  apply (setup_defaults toy_GetAllParams toy_BuildSED toy_config (toy_base None)
           0 0 [] [] toy_params None); [reflexivity|reflexivity|exact H3].
Defined.

(** ** Determinism *)

Section Determinism.
Context {WCS RNG Sensor SED Bandpass : Type}.
Variables E1 E2 : Ext WCS RNG Sensor SED Bandpass.
Hypothesis Hagree : ext_agree E1 E2.

Lemma generate_agree n r : generate E1 n r = generate E2 n r.
Proof using Hagree.
  pose proof Hagree as (_ & _ & _ & _ & _ & _ & Hu & _).
  revert r. induction n as [|n IH]; intros r; simpl; [done|].
  rewrite Hu. destruct (UniformDeviate E2 r) as [u r1]. by rewrite IH.
Qed.

Lemma shoot_photons_agree cpi bnds r :
  shoot_photons E1 cpi bnds r = shoot_photons E2 cpi bnds r.
Proof using Hagree.
  unfold shoot_photons.
  pose proof Hagree as (_ & _ & _ & _ & _ & Hp & _ & _). rewrite Hp.
  destruct (PoissonDeviate E2 r _) as [n r1].
  rewrite generate_agree. destruct (generate E2 _ r1) as [ux r2].
  by rewrite generate_agree.
Qed.

Lemma make_base_image_agree self image cpi :
  make_base_image E1 self image cpi = make_base_image E2 self image cpi.
Proof using Hagree.
  unfold make_base_image.
  pose proof Hagree as (_ & _ & _ & Hsky & _). by rewrite Hsky.
Qed.

Lemma expected_increment_agree sensor section base_image bnds :
  expected_increment E1 sensor section base_image bnds
  = expected_increment E2 sensor section base_image bnds.
Proof using Hagree.
  unfold expected_increment.
  pose proof Hagree as (_ & Ha & _). by rewrite Ha.
Qed.

Lemma mean_level_iteration_agree base base_image sec bnds section s :
  mean_level_iteration E1 base base_image sec bnds section s
  = mean_level_iteration E2 base base_image sec bnds section s.
Proof using Hagree.
  unfold mean_level_iteration.
  apply bind_ext; [done|]. intros s0 s1.
  rewrite expected_increment_agree.
  apply bind_ext; [done|]. intros temp s2.
  pose proof Hagree as (_ & _ & _ & _ & Hn & _). by rewrite Hn.
Qed.

Lemma photon_iteration_agree sampler cpi sec bnds section s :
  photon_iteration E1 sampler cpi sec bnds section s
  = photon_iteration E2 sampler cpi sec bnds section s.
Proof using Hagree.
  unfold photon_iteration.
  apply bind_ext; [done|]. intros s0 s1.
  rewrite shoot_photons_agree.
  destruct (shoot_photons E2 cpi bnds (st_rng s0)) as [photons r].
  pose proof Hagree as (_ & _ & Hacc & _ & _ & _ & _ & Happ).
  rewrite Happ. destruct (applyTo E2 _ _ photons r) as [photons' r'].
  by rewrite Hacc.
Qed.

Lemma iteration_agree base sampler cpi base_image sec bnds section it s :
  iteration E1 base sampler cpi base_image sec bnds section it s
  = iteration E2 base sampler cpi base_image sec bnds section it s.
Proof using Hagree.
  unfold iteration. apply bind_ext; [done|]. intros _ s0.
  destruct sampler.
  - apply photon_iteration_agree.
  - apply mean_level_iteration_agree.
Qed.

Lemma do_section_agree self base sampler niter cpi base_image
    ncol nrow dx dy i j s :
  do_section E1 self base sampler niter cpi base_image ncol nrow dx dy i j s
  = do_section E2 self base sampler niter cpi base_image ncol nrow dx dy i j s.
Proof using Hagree.
  unfold do_section. apply bind_ext; [done|]. intros _ s0.
  apply bind_ext; [done|]. intros section s1.
  apply bind_ext; [|done]. intros s2.
  apply for_acc_ext. intros. apply iteration_agree.
Qed.

Lemma addNoise_body_agree self base s :
  addNoise_body E1 self base s = addNoise_body E2 self base s.
Proof using Hagree.
  unfold addNoise_body. apply bind_ext; [done|]. intros [niter cpi] s0.
  apply bind_ext; [done|]. intros _ s1.
  apply bind_ext; [done|]. intros s2 s3.
  destruct (shape (array (st_image s2))) as [nrow ncol].
  rewrite make_base_image_agree.
  apply bind_ext; [done|]. intros sampler s4.
  apply bind_ext; [done|]. intros dx s5.
  apply bind_ext; [done|]. intros dy s6.
  apply for_ext. intros i s7. apply for_ext. intros j s8.
  apply do_section_agree.
Qed.
End Determinism.


Lemma toy_agree : ext_agree toy toy'.
Proof.
  repeat split; try reflexivity.
  intros r. unfold toy, toy', toy_uniform, toy_uniform', toy_next. simpl.
  do 2 f_equal. lia.
Qed.


(** ** Runs that succeed *)

(** On a well-formed image with lower-left pixel (1, 1), with a grid no
    finer than the image, positive counts, and collaborators that keep
    array shapes, [addNoise] runs to completion. *)

Lemma wf_amap (f : Q -> Q) b a :
  wf_array b a -> wf_array b (amap f a).
Proof.
  intros [Hl Hr]. split.
  - unfold amap. by rewrite length_fmap.
  - unfold amap. apply Forall_fmap. eapply Forall_impl; [exact Hr|].
    intros row Hrow. simpl. by rewrite length_fmap.
Qed.

Lemma iop_ok {WCS : Type} (f : Q -> Q -> Q) (im other : Image WCS) :
  wf_image im -> wf_array (bounds im) (array other) ->
  exists im', iop f im other = Ok im' /\ wf_image im' /\
              bounds im' = bounds im /\ wcs im' = wcs im.
Proof.
  intros Him Hother. unfold iop.
  rewrite (wf_shape _ _ Him), (wf_shape _ _ Hother).
  rewrite bool_decide_true by done.
  eexists. split; [reflexivity|]. split; [|done].
  by apply wf_map2.
Qed.

Lemma col_bounds_ok (len n i : Z) :
  0 < n -> n <= len -> 0 <= i < n ->
  1 <= col_min (len / n) i /\
  col_min (len / n) i <= col_max len n (len / n) i /\
  col_max len n (len / n) i <= len.
Proof.
  intros Hn Hlen Hi.
  assert (Hd : 1 <= len / n) by (apply Z.div_le_lower_bound; lia).
  assert (Hnd : n * (len / n) <= len) by (apply Z.mul_div_le; lia).
  unfold col_min, col_max. destruct (Z.eqb_spec i (n - 1)); nia.
Qed.

Section Success.
Context {WCS RNG Sensor SED Bandpass : Type}.
Variable E : Ext WCS RNG Sensor SED Bandpass.
Hypothesis Hshapes : ext_shapes E.

Variables (base_image : Image WCS) (sec bnds : BoundsI).
Hypothesis Hbase : wf_image base_image.
Hypothesis Hbnds : includes (bounds base_image) bnds = true.
Hypothesis Hsec : includes bnds sec = true.

Lemma expected_increment_ok sensor (section : Image WCS) :
  wf_image section -> bounds section = bnds ->
  exists temp,
    expected_increment E sensor section base_image bnds = Ok temp /\
    wf_image temp /\ bounds temp = bnds.
Proof using Hshapes Hbase Hbnds.
  intros Hws Hbs. unfold expected_increment.
  destruct (subImage_spec base_image bnds Hbase Hbnds)
    as (temp & Htemp & Hbt & _ & Hwt & _).
  rewrite Htemp. simpl.
  destruct (calculate_pixel_areas E sensor section) as [a|a] eqn:Harea.
  - eauto.
  - pose proof Hshapes as (Ha & _).
    destruct (Ha sensor section a Hws Harea) as [Hba Hwa].
    destruct (iop_ok Qmult temp (div_scalar a (mean (array a)))) as (t & Ht & Hwt' & Hbt' & _).
    + exact Hwt.
    + simpl. apply wf_amap. rewrite Hbt, <- Hbs, <- Hba. exact Hwa.
    + unfold imul. rewrite Ht. exists t. split; [done|]. split; [done|]. congruence.
Qed.

Lemma mean_level_iteration_ok base (section : Image WCS) s :
  wf_image section -> bounds section = bnds ->
  exists s' section',
    mean_level_iteration E base base_image sec bnds section s = (s', Ok section') /\
    wf_image section' /\ bounds section' = bnds /\ st_image s' = st_image s.
Proof using Hshapes Hbase Hbnds Hsec.
  intros Hws Hbs. unfold mean_level_iteration.
  unfold mbind at 1, M_bind at 1, get.
  destruct (expected_increment_ok (st_sensor s) section Hws Hbs)
    as (temp & Htemp & Hwt & Hbt).
  unfold mbind at 1, M_bind at 1, lift at 1. rewrite Htemp.
  pose proof Hshapes as (_ & _ & _ & Hn).
  specialize (Hn base temp 0%Q (st_rng s) Hwt).
  destruct (AddNoise E base temp 0%Q (st_rng s)) as [noisy r]. simpl in Hn.
  unfold mbind at 1, M_bind at 1, set_rng, modify.
  destruct (iop_ok Qplus section (with_array temp noisy))
    as (section' & Hadd & Hws' & Hbs' & _).
  { exact Hws. }
  { simpl. rewrite Hbs, <- Hbt. exact Hn. }
  unfold mbind at 1, M_bind at 1, lift at 1. unfold iadd. rewrite Hadd.
  destruct (subImage_spec section' sec Hws') as (view & Hview & _).
  { rewrite Hbs', Hbs. exact Hsec. }
  unfold mbind at 1, M_bind at 1, lift at 1. rewrite Hview.
  unfold mbind, M_bind, log, modify, mret, M_ret. simpl.
  eexists _, _. split; [reflexivity|]. split; [done|]. split; [congruence|done].
Qed.

Lemma photon_iteration_ok sampler cpi (section : Image WCS) s :
  wf_image section -> bounds section = bnds ->
  exists s' section',
    photon_iteration E sampler cpi sec bnds section s = (s', Ok section') /\
    wf_image section' /\ bounds section' = bnds /\ st_image s' = st_image s.
Proof using Hshapes Hsec.
  intros Hws Hbs. unfold photon_iteration.
  unfold mbind at 1, M_bind at 1, get.
  destruct (shoot_photons E cpi bnds (st_rng s)) as [photons r].
  destruct (applyTo E sampler.1 sampler.2 photons r) as [photons' r'].
  pose proof Hshapes as (_ & Hacc & _).
  specialize (Hacc (st_sensor s) photons' section r' Hws).
  destruct (accumulate E (st_sensor s) photons' section r') as [[sensor arr] r''].
  simpl in Hacc.
  unfold mbind at 1, M_bind at 1, set_rng, modify.
  unfold mbind at 1, M_bind at 1, set_sensor, modify.
  destruct (subImage_spec (with_array section arr) sec) as (view & Hview & _).
  { exact Hacc. }
  { simpl. rewrite Hbs. exact Hsec. }
  unfold mbind at 1, M_bind at 1, lift at 1. rewrite Hview.
  unfold mbind, M_bind, log, modify, mret, M_ret. simpl.
  eexists _, _. split; [reflexivity|]. split; [exact Hacc|]. split; [exact Hbs|done].
Qed.

Lemma iterations_ok base sampler cpi (its : list Z) (section : Image WCS) s :
  wf_image section -> bounds section = bnds ->
  exists s' section',
    for_acc its (iteration E base sampler cpi base_image sec bnds) section s
    = (s', Ok section') /\
    wf_image section' /\ bounds section' = bnds /\ st_image s' = st_image s.
Proof using Hshapes Hbase Hbnds Hsec.
  revert section s. induction its as [|it its IH]; intros section s Hws Hbs; simpl.
  - eexists _, _. split; [reflexivity|]. done.
  - unfold mbind at 1, M_bind at 1. unfold iteration at 1.
    unfold mbind at 1, M_bind at 1, log at 1, modify at 1.
    set (s0 := mkState _ _ _ _).
    assert (Hstep : exists s1 section1,
               match sampler with
               | Some sp => photon_iteration E sp cpi sec bnds section
               | None => mean_level_iteration E base base_image sec bnds section
               end s0 = (s1, Ok section1) /\
               wf_image section1 /\ bounds section1 = bnds /\
               st_image s1 = st_image s0).
    { destruct sampler as [sp|].
      - by apply photon_iteration_ok.
      - by apply mean_level_iteration_ok. }
    destruct Hstep as (s1 & section1 & Hrun & Hw1 & Hb1 & Hi1). rewrite Hrun.
    destruct (IH section1 s1 Hw1 Hb1) as (s' & section' & Hrest & Hw' & Hb' & Hi').
    rewrite Hrest. eexists _, _. split; [reflexivity|].
    split; [done|]. split; [done|]. rewrite Hi', Hi1. done.
Qed.
End Success.

Lemma for_ok {S A : Type} (I : S -> Prop) (xs : list A) (body : A -> M S unit) :
  (forall x s, x ∈ xs -> I s -> exists s', body x s = (s', Ok tt) /\ I s') ->
  forall s, I s -> exists s', for_ xs body s = (s', Ok tt) /\ I s'.
Proof.
  induction xs as [|x xs IH]; intros Hbody s Hs; simpl.
  - by exists s.
  - destruct (Hbody x s) as (s1 & Hrun & H1); [left|done|].
    unfold mbind, M_bind. rewrite Hrun.
    apply IH; [|done]. intros y s0 Hy. apply Hbody. by right.
Qed.

Section Run.
Context {WCS RNG Sensor SED Bandpass : Type}.
Variable E : Ext WCS RNG Sensor SED Bandpass.
Hypothesis Hshapes : ext_shapes E.

Variable self : Builder SED.
Variables ncol nrow : Z.
Hypothesis Hnx : 0 < nx self <= ncol.
Hypothesis Hny : 0 < ny self <= nrow.
Hypothesis Hbuf : 0 <= buffer_size self.

Let B := mkBoundsI 1 ncol 1 nrow.

Lemma make_base_image_wf (image : Image WCS) cpi :
  bounds image = B ->
  wf_image (make_base_image E self image cpi) /\
  bounds (make_base_image E self image cpi) = withBorder B (buffer_size self).
Proof using Hshapes.
  intros HB. unfold make_base_image. rewrite HB.
  pose proof (wf_ImageF_bounds (withBorder B (buffer_size self)) (wcs image)) as Hz.
  destruct (sed self); [done|].
  split; [|done].
  pose proof Hshapes as (_ & _ & Hsky & _).
  unfold rescale, imul_scalar, wf_image. simpl.
  apply wf_amap. exact (Hsky _ _ 1%Q Hz).
Qed.

(** One section: it succeeds, and leaves every pixel outside its
    un-expanded bounds as it was. *)
Lemma do_section_ok base sampler niter cpi (base_image : Image WCS) i j s :
  wf_image base_image ->
  bounds base_image = withBorder B (buffer_size self) ->
  (i, j) ∈ grid (nx self) (ny self) ->
  wf_image (st_image s) -> bounds (st_image s) = B ->
  exists s',
    do_section E self base sampler niter cpi base_image ncol nrow
               (ncol / nx self) (nrow / ny self) i j s = (s', Ok tt) /\
    wf_image (st_image s') /\ bounds (st_image s') = B /\
    forall x y,
      includes_pos (sec_bounds ncol nrow (nx self) (ny self) i j) x y = false ->
      getValue (st_image s') x y = getValue (st_image s) x y.
Proof using Hshapes Hnx Hny Hbuf.
  intros Hwb Hbb Hij Hwi Hbi. apply elem_of_grid in Hij as [Hi Hj].
  unfold do_section. fold (sec_bounds ncol nrow (nx self) (ny self) i j).
  set (sec := sec_bounds ncol nrow (nx self) (ny self) i j).
  set (bnds := withBorder sec (buffer_size self)).
  pose proof (col_bounds_ok ncol (nx self) i ltac:(lia) ltac:(lia) Hi) as Hx.
  pose proof (col_bounds_ok nrow (ny self) j ltac:(lia) ltac:(lia) Hj) as Hy.
  assert (Hsec_in : includes B sec = true)
    by (apply includes_spec; simpl; lia).
  assert (Hbnds : includes (bounds base_image) bnds = true)
    by (rewrite Hbb; apply includes_spec; simpl; lia).
  assert (Hsec : includes bnds sec = true)
    by (apply includes_spec; simpl; lia).
  unfold mbind at 1, M_bind at 1, log at 1, modify at 1.
  destruct (subImage_spec base_image bnds Hwb Hbnds)
    as (section & Hsection & Hbs & _ & Hws & _).
  unfold mbind at 1, M_bind at 1, lift at 1. rewrite Hsection.
  set (s0 := mkState _ _ _ _).
  destruct (iterations_ok E Hshapes base_image sec bnds Hwb Hbnds Hsec
              base sampler cpi (range niter) (setZero section) s0)
    as (s1 & section1 & Hits & Hw1 & Hb1 & Hi1).
  { unfold setZero, wf_image. simpl. by apply wf_amap. }
  { exact Hbs. }
  unfold mbind at 1, M_bind at 1. rewrite Hits.
  destruct (merge_section_spec s1 sec section1) as (s' & Hm & Hw' & Hb' & Hout).
  - rewrite Hi1. exact Hwi.
  - exact Hw1.
  - rewrite Hi1. simpl. rewrite Hbi. exact Hsec_in.
  - rewrite Hb1. exact Hsec.
  - exists s'. split; [exact Hm|]. rewrite Hi1 in Hb', Hout. simpl in Hb', Hout.
    split; [exact Hw'|]. split; [congruence|exact Hout].
Qed.

(** The whole of [addNoise]. *)
Lemma addNoise_succeeds (image : Image WCS) (base : Base WCS Sensor Bandpass)
    image_num obj_num current_var (rng : RNG) logger :
  wf_image image -> bounds image = B ->
  (0 < counts_per_pixel self)%Q -> (0 < max_counts_per_iter self)%Q ->
  (sed self = None \/ is_Some (base_bandpass base)) ->
  exists s',
    addNoise E self image base image_num obj_num current_var rng logger
    = (s', Ok tt) /\
    wf_image (st_image s') /\ bounds (st_image s') = B.
Proof using Hshapes Hnx Hny Hbuf.
  intros Hwi Hbi Hc Hm Hmode. unfold addNoise, addNoise_body.
  destruct (iteration_plan_ok _ _ Hc Hm) as (niter & cpi & Hplan).
  unfold mbind at 1, M_bind at 1, lift at 1. rewrite Hplan.
  unfold mbind at 1, M_bind at 1, log at 1, modify at 1.
  unfold mbind at 1, M_bind at 1, get at 1.
  cbn [st_image st_rng st_sensor st_log].
  assert (Hdef : isDefined B = true) by (apply isDefined_spec; simpl; lia).
  rewrite (wf_shape _ _ Hwi), Hbi, numpyShape_defined by done. simpl xmin.
  simpl xmax. simpl ymin. simpl ymax.
  replace (Z.of_nat (Z.to_nat (nrow - 1 + 1))) with nrow by lia.
  replace (Z.of_nat (Z.to_nat (ncol - 1 + 1))) with ncol by lia.
  destruct (make_base_image_wf image cpi Hbi) as [Hwb Hbb].
  assert (Hsampler : exists sp, wavelength_sampler self base = Ok sp).
  { unfold wavelength_sampler. destruct Hmode as [Hnone | [bp Hbp]].
    - rewrite Hnone. eauto.
    - rewrite Hbp. destruct (sed self); eauto. }
  destruct Hsampler as [sp Hsp].
  unfold mbind at 1, M_bind at 1, lift at 1. rewrite Hsp.
  unfold mbind at 1, M_bind at 1, lift at 1.
  rewrite floordiv_nonzero by lia.
  unfold mbind at 1, M_bind at 1, lift at 1.
  rewrite floordiv_nonzero by lia.
  set (s0 := mkState _ _ _ _). rewrite for_grid.
  apply (for_ok (fun s => wf_image (st_image s) /\ bounds (st_image s) = B)).
  - intros [i j] s Hij [Hws Hbs]. simpl.
    destruct (do_section_ok base sp niter cpi _ i j s Hwb Hbb Hij Hws Hbs)
      as (s' & Hrun & Hw' & Hb' & _).
    eauto.
  - done.
Qed.
End Run.

(** The small instance keeps shapes, so the run above applies to it. *)
Lemma wf_imap_rows (f : nat -> list Q -> list Q) b a :
  (forall i row, length (f i row) = length row) ->
  wf_array b a -> wf_array b (imap f a).
Proof.
  intros Hf [Hl Hr]. split.
  - by rewrite length_imap.
  - apply Forall_lookup. intros i row Hrow.
    rewrite list_lookup_imap in Hrow.
    destruct (a !! i) as [row0|] eqn:Hrow0; simpl in Hrow; [|done].
    inversion Hrow; subst. rewrite Hf.
    exact (Forall_lookup_1 _ _ _ _ Hr Hrow0).
Qed.

Lemma toy_shapes : ext_shapes toy.
Proof.
  split; [|split; [|split]].
  - intros sensor im a Him Ha. simpl in Ha. unfold toy_areas in Ha.
    destruct sensor; [|done]. inversion Ha; subst.
    split; [done|]. unfold wf_image. simpl. by apply wf_amap.
  - intros sensor photons im r Him. simpl.
    apply wf_imap_rows; [|done]. intros i row. by rewrite length_imap.
  - intros w im sky Him. simpl.
    apply wf_imap_rows; [|done]. intros i row. by rewrite length_fmap.
  - intros base im var r Him. simpl. by apply wf_amap.
Qed.

Example toy_run_succeeds :
  exists s',
    addNoise toy (toy_builder (Some tt)) toy_image (toy_base (Some tt))
             0 0 0%Q 7 [] = (s', Ok tt) /\
    wf_image (st_image s') /\ bounds (st_image s') = mkBoundsI 1 4 1 2.
Proof.
  apply (addNoise_succeeds toy toy_shapes (toy_builder (Some tt)) 4 2);
    try (simpl; lia); try reflexivity.
  - split; [reflexivity|repeat constructor].
  - right. by eexists.
Qed.

(** * Further properties of [flat.py] *)

(** ** When the iteration count cannot be computed *)

Lemma Qceiling_zero_iff (q : Q) : Qceiling q = 0 <-> (-1 < q <= 0)%Q.
Proof.
  pose proof (Qle_ceiling q) as Hle. pose proof (Qceiling_lt q) as Hlt.
  split.
  - intros H0. rewrite H0 in Hle, Hlt. simpl in Hlt. split.
    + exact Hlt.
    + exact Hle.
  - intros [Hlo Hhi].
    assert (H1 : Qceiling q <= 0).
    { change 0 with (Qceiling 0). by apply Qceiling_resp_le. }
    assert (H2 : (inject_Z (-1) < inject_Z (Qceiling q))%Q).
    { eapply Qlt_le_trans; [exact Hlo|exact Hle]. }
    rewrite <- Zlt_Qlt in H2. lia.
Qed.


(** ** Loops that do nothing, and what an iteration never touches *)

Lemma range_nonpos (n : Z) : n <= 0 -> range n = [].
Proof. intros Hn. unfold range. by replace (Z.to_nat n) with 0%nat by lia. Qed.

Lemma range_pos (n : Z) : 0 < n -> exists rest, range n = 0 :: rest.
Proof.
  intros Hn. unfold range.
  destruct (Z.to_nat n) as [|k] eqn:Hk; [lia|]. simpl. eauto.
Qed.

Lemma for_nop {S A : Type} (xs : list A) (body : A -> M S unit) (s : S) :
  (forall x s0, body x s0 = (s0, Ok tt)) -> for_ xs body s = (s, Ok tt).
Proof.
  intros Hbody. induction xs as [|x xs IH]; simpl; [done|].
  unfold mbind, M_bind. by rewrite Hbody.
Qed.

Section Iterations.
Context {WCS RNG Sensor SED Bandpass : Type}.
Variable E : Ext WCS RNG Sensor SED Bandpass.

(** Whatever its outcome, an iteration leaves the output image alone, and
    the accumulator it returns has the bounds of the one it was given. *)
Lemma mean_level_iteration_image base base_image sec bnds
    (section : Image WCS) (s s' : State WCS RNG Sensor) r :
  mean_level_iteration E base base_image sec bnds section s = (s', r) ->
  st_image s' = st_image s /\
  forall section', r = Ok section' -> bounds section' = bounds section.
Proof.
  unfold mean_level_iteration, mbind, M_bind, get, lift, set_rng, modify, log,
    mret, M_ret, iadd, iop.
  destruct (expected_increment E (st_sensor s) section base_image bnds)
    as [temp|e]; [|by intros [= <- <-]].
  destruct (AddNoise E base temp 0%Q (st_rng s)) as [noisy r0].
  case_bool_decide; [|by intros [= <- <-]].
  destruct (subImage _ sec) as [view|e]; intros [= <- <-]; [|done].
  split; [done|]. by intros section' [= <-].
Qed.

Lemma photon_iteration_image sampler cpi sec bnds
    (section : Image WCS) (s s' : State WCS RNG Sensor) r :
  photon_iteration E sampler cpi sec bnds section s = (s', r) ->
  st_image s' = st_image s /\
  forall section', r = Ok section' -> bounds section' = bounds section.
Proof.
  unfold photon_iteration, mbind, M_bind, get, lift, set_rng, set_sensor,
    modify, log, mret, M_ret.
  destruct (shoot_photons E cpi bnds (st_rng s)) as [photons r0].
  destruct (applyTo E sampler.1 sampler.2 photons r0) as [photons' r1].
  destruct (accumulate E (st_sensor s) photons' section r1) as [[sensor arr] r2].
  destruct (subImage _ sec) as [view|e]; intros [= <- <-]; [|done].
  split; [done|]. by intros section' [= <-].
Qed.

Lemma iterations_image base sampler cpi base_image sec bnds (its : list Z)
    (section : Image WCS) (s s' : State WCS RNG Sensor) r :
  for_acc its (iteration E base sampler cpi base_image sec bnds) section s
  = (s', r) ->
  st_image s' = st_image s /\
  forall section', r = Ok section' -> bounds section' = bounds section.
Proof.
  revert section s. induction its as [|it its IH]; intros section s; simpl.
  - intros [= <- <-]. split; [done|]. by intros section' [= <-].
  - unfold mbind at 1, M_bind at 1. unfold iteration at 1.
    unfold mbind at 1, M_bind at 1, log at 1, modify at 1.
    set (s0 := mkState _ _ _ _).
    set (step := match sampler with
                 | Some sp => photon_iteration E sp cpi sec bnds section
                 | None => mean_level_iteration E base base_image sec bnds section
                 end).
    assert (Hstep : forall s1 r1,
               step s0 = (s1, r1) ->
               st_image s1 = st_image s /\
               forall section1, r1 = Ok section1 ->
                                bounds section1 = bounds section).
    { intros s1 r1. unfold step. destruct sampler as [sp|]; intros H.
      - by apply photon_iteration_image in H.
      - by apply mean_level_iteration_image in H. }
    destruct (step s0) as [s1 [section1|e]] eqn:Hrun.
    + destruct (Hstep _ _ eq_refl) as [Hi Hb]. intros Hrest.
      apply IH in Hrest as [Hi' Hb']. split; [congruence|].
      intros section' Hr. rewrite (Hb' _ Hr). by apply Hb.
    + destruct (Hstep _ _ eq_refl) as [Hi _]. intros [= <- <-]. done.
Qed.

(** A section whose expanded bounds do not include its own bounds (they
    are empty, or the buffer is negative) cannot be completed: the section
    raises, and the output image is as before. *)
Lemma do_section_fails self base sampler niter cpi (base_image : Image WCS)
    ncol nrow dx dy i j (s : State WCS RNG Sensor) :
  let sec := sec_bounds_step ncol nrow (nx self) (ny self) dx dy i j in
  includes (withBorder sec (buffer_size self)) sec = false ->
  exists s' e,
    do_section E self base sampler niter cpi base_image ncol nrow dx dy i j s
    = (s', Raise e) /\
    st_image s' = st_image s.
Proof.
  intros sec Hinc. unfold do_section. fold sec.
  set (bnds := withBorder sec (buffer_size self)) in *.
  unfold mbind at 1, M_bind at 1, log at 1, modify at 1.
  set (s0 := mkState _ _ _ _).
  unfold mbind at 1, M_bind at 1, lift at 1.
  destruct (subImage base_image bnds) as [section|e] eqn:Hsub; [|by eauto].
  assert (Hbs : bounds (setZero section) = bnds).
  { simpl. unfold subImage in Hsub.
    repeat case_match; simplify_eq; done. }
  unfold mbind at 1, M_bind at 1.
  destruct (for_acc _ _ _ s0) as [s1 [section1|e]] eqn:Hits.
  - apply iterations_image in Hits as [Hi Hb].
    specialize (Hb section1 eq_refl). rewrite Hbs in Hb.
    unfold merge_section, mbind, M_bind, get, lift, iadd_sub.
    destruct (subImage (st_image s1) sec) as [view|e]; simpl; [|by eauto].
    unfold subImage at 1. rewrite Hb, Hinc.
    destruct (isDefined bnds); simpl; eauto.
  - apply iterations_image in Hits as [Hi _]. eauto.
Qed.
End Iterations.

(** ** Grids without sections *)

(** X2. When the iteration count and the wavelength sampler are available
    but a grid dimension is not positive, [addNoise] writes no pixel, draws
    no random number and logs only the iteration count: a zero [nx] or [ny]
    raises [ZeroDivisionError] (lines 138-139), and a negative one makes the
    loops empty, so the call returns with the image untouched. *)
Theorem addNoise_degenerate_grid {WCS RNG Sensor SED Bandpass : Type}
    (E : Ext WCS RNG Sensor SED Bandpass) (self : Builder SED)
    (image : Image WCS) (base : Base WCS Sensor Bandpass)
    (image_num obj_num : Z) (current_var : Q) (rng : RNG)
    (logger : list LogRecord) (niter : Z) (counts_per_iter : Q)
    (sampler : option (SED * Bandpass)) :
  iteration_plan (counts_per_pixel self) (max_counts_per_iter self)
  = Ok (niter, counts_per_iter) ->
  wavelength_sampler self base = Ok sampler ->
  nx self <= 0 \/ ny self <= 0 ->
  exists r,
    addNoise E self image base image_num obj_num current_var rng logger
    = (mkState image rng (default (trivial_sensor E) (base_sensor base))
         (logger ++
            [mkLog INFO "Making flat: niter = %d, counts_per_iter = %d"
                   [AInt niter; AFloat counts_per_iter]]),
       r) /\
    (nx self = 0 \/ ny self = 0 -> r = Raise ZeroDivisionError) /\
    (nx self <> 0 /\ ny self <> 0 -> r = Ok tt).
Proof.
  intros Hplan Hsp Hgrid. unfold addNoise, addNoise_body.
  unfold mbind at 1, M_bind at 1, lift at 1. rewrite Hplan.
  unfold mbind at 1, M_bind at 1, log at 1, modify at 1.
  unfold mbind at 1, M_bind at 1, get at 1.
  cbn [st_image st_rng st_sensor st_log].
  destruct (shape (array image)) as [nrow ncol].
  unfold mbind at 1, M_bind at 1, lift at 1. rewrite Hsp.
  unfold mbind at 1, M_bind at 1, lift at 1. unfold floordiv at 1.
  destruct (Z.eqb_spec (nx self) 0) as [Hx|Hx].
  { eexists. split; [reflexivity|]. split; [done|]. by intros [? ?]. }
  unfold mbind at 1, M_bind at 1, lift at 1. unfold floordiv at 1.
  destruct (Z.eqb_spec (ny self) 0) as [Hy|Hy].
  { eexists. split; [reflexivity|]. split; [done|]. by intros [? ?]. }
  eexists. split.
  - destruct (Z_le_gt_dec (nx self) 0).
    + rewrite (range_nonpos (nx self)) by done. reflexivity.
    + rewrite (range_nonpos (ny self)) by lia. by apply for_nop.
  - split; [|done]. intros [?|?]; lia.
Qed.

Lemma addNoise_degenerate_grid_witness :
  iteration_plan (counts_per_pixel (mkBuilder 3%Q 4 2 1 2%Q (@None unit) 0 1))
                 (max_counts_per_iter (mkBuilder 3%Q 4 2 1 2%Q (@None unit) 0 1))
  = Ok (2, (3 / inject_Z 2)%Q) /\
  wavelength_sampler (mkBuilder 3%Q 4 2 1 2%Q (@None unit) 0 1) (toy_base None)
  = Ok None /\
  (nx (mkBuilder 3%Q 4 2 1 2%Q (@None unit) 0 1) <= 0 \/
   ny (mkBuilder 3%Q 4 2 1 2%Q (@None unit) 0 1) <= 0) /\
  exists r,
    addNoise toy (mkBuilder 3%Q 4 2 1 2%Q None 0 1) toy_image (toy_base None)
             0 0 0%Q 7 []
    = (mkState toy_image 7
         (default (trivial_sensor toy) (base_sensor (toy_base None)))
         ([] ++
            [mkLog INFO "Making flat: niter = %d, counts_per_iter = %d"
                   [AInt 2; AFloat (3 / inject_Z 2)%Q]]),
       r) /\
    (nx (mkBuilder 3%Q 4 2 1 2%Q (@None unit) 0 1) = 0 \/
     ny (mkBuilder 3%Q 4 2 1 2%Q (@None unit) 0 1) = 0 ->
     r = Raise ZeroDivisionError) /\
    (nx (mkBuilder 3%Q 4 2 1 2%Q (@None unit) 0 1) <> 0 /\
     ny (mkBuilder 3%Q 4 2 1 2%Q (@None unit) 0 1) <> 0 -> r = Ok tt).
Proof.
  split; [reflexivity|]. split; [reflexivity|]. split; [left; simpl; lia|].
  apply (addNoise_degenerate_grid toy (mkBuilder 3%Q 4 2 1 2%Q None 0 1)
           toy_image (toy_base None) 0 0 0%Q 7 [] 2 (3 / inject_Z 2)%Q None).
  - reflexivity.
  - reflexivity.
  - left. simpl. lia.
Defined.

(** ** Grids that cannot work *)

Lemma first_section_unusable (ncol nrow nx ny b : Z) :
  0 < ncol -> 0 < nrow -> 0 < nx -> 0 < ny ->
  ncol < nx \/ nrow < ny \/ b < 0 ->
  includes (withBorder (sec_bounds ncol nrow nx ny 0 0) b)
           (sec_bounds ncol nrow nx ny 0 0) = false.
Proof.
  intros Hc Hr Hnx Hny Hbad.
  destruct (includes _ _) eqn:Hinc; [|done]. exfalso.
  apply includes_spec in Hinc. simpl in Hinc. unfold col_min, col_max in Hinc.
  destruct Hbad as [Hx|[Hy|Hb]].
  - rewrite (Z.div_small ncol nx) in Hinc by lia.
    destruct (Z.eqb_spec 0 (nx - 1)); lia.
  - rewrite (Z.div_small nrow ny) in Hinc by lia.
    destruct (Z.eqb_spec 0 (ny - 1)); lia.
  - lia.
Qed.

(** X4. On a well-formed image with lower-left pixel (1, 1), a grid with
    more columns than the image has, or more rows, or a negative
    [buffer_size], makes [addNoise] raise in every case (at the latest in
    the very first section, whose bounds are then not included in its
    expanded bounds), and the output image is left as it was. *)
Theorem addNoise_rejects_grid {WCS RNG Sensor SED Bandpass : Type}
    (E : Ext WCS RNG Sensor SED Bandpass) (self : Builder SED)
    (image : Image WCS) (base : Base WCS Sensor Bandpass)
    (image_num obj_num : Z) (current_var : Q) (rng : RNG)
    (logger : list LogRecord) (ncol nrow : Z) :
  wf_image image -> bounds image = mkBoundsI 1 ncol 1 nrow ->
  0 < ncol -> 0 < nrow -> 0 < nx self -> 0 < ny self ->
  ncol < nx self \/ nrow < ny self \/ buffer_size self < 0 ->
  exists s' e,
    addNoise E self image base image_num obj_num current_var rng logger
    = (s', Raise e) /\
    st_image s' = image.
Proof.
  intros Hwi Hbi Hc Hr Hnx Hny Hbad. unfold addNoise, addNoise_body.
  unfold mbind at 1, M_bind at 1, lift at 1.
  destruct (iteration_plan _ _) as [[niter cpi]|e]; [|by eauto].
  unfold mbind at 1, M_bind at 1, log at 1, modify at 1.
  unfold mbind at 1, M_bind at 1, get at 1.
  cbn [st_image st_rng st_sensor st_log].
  assert (Hdef : isDefined (mkBoundsI 1 ncol 1 nrow) = true)
    by (apply isDefined_spec; simpl; lia).
  rewrite (wf_shape _ _ Hwi), Hbi, numpyShape_defined by done.
  cbn [xmin xmax ymin ymax].
  replace (Z.of_nat (Z.to_nat (nrow - 1 + 1))) with nrow by lia.
  replace (Z.of_nat (Z.to_nat (ncol - 1 + 1))) with ncol by lia.
  unfold mbind at 1, M_bind at 1, lift at 1.
  destruct (wavelength_sampler self base) as [sp|e]; [|by eauto].
  unfold mbind at 1, M_bind at 1, lift at 1.
  rewrite floordiv_nonzero by lia.
  unfold mbind at 1, M_bind at 1, lift at 1.
  rewrite floordiv_nonzero by lia.
  destruct (range_pos (nx self) Hnx) as [xs ->].
  destruct (range_pos (ny self) Hny) as [ys ->].
  cbn [for_]. unfold mbind at 1, M_bind at 1. unfold mbind at 1, M_bind at 1.
  set (s0 := mkState _ _ _ _).
  destruct (do_section_fails E self base sp niter cpi
              (make_base_image E self image cpi) ncol nrow
              (ncol / nx self) (nrow / ny self) 0 0 s0) as (s' & e & Hrun & Hi).
  { by apply first_section_unusable. }
  rewrite Hrun. exists s', e. split; [reflexivity|]. exact Hi.
Qed.

(** A 4 x 2 image cut into 5 columns. *)
Lemma addNoise_rejects_grid_witness :
  wf_image toy_image /\ bounds toy_image = mkBoundsI 1 4 1 2 /\
  0 < 4 /\ 0 < 2 /\
  0 < nx (mkBuilder 3%Q 4 2 1 2%Q (@None unit) 5 1) /\
  0 < ny (mkBuilder 3%Q 4 2 1 2%Q (@None unit) 5 1) /\
  (4 < nx (mkBuilder 3%Q 4 2 1 2%Q (@None unit) 5 1) \/
   2 < ny (mkBuilder 3%Q 4 2 1 2%Q (@None unit) 5 1) \/
   buffer_size (mkBuilder 3%Q 4 2 1 2%Q (@None unit) 5 1) < 0) /\
  exists s' e,
    addNoise toy (mkBuilder 3%Q 4 2 1 2%Q None 5 1) toy_image (toy_base None)
             0 0 0%Q 7 []
    = (s', Raise e) /\
    st_image s' = toy_image.
Proof.
  assert (Hwf : wf_image toy_image) by (split; [reflexivity|repeat constructor]).
  split; [exact Hwf|]. split; [reflexivity|]. split; [lia|]. split; [lia|].
  split; [simpl; lia|]. split; [simpl; lia|]. split; [left; simpl; lia|].
  apply (addNoise_rejects_grid toy (mkBuilder 3%Q 4 2 1 2%Q None 5 1) toy_image
           (toy_base None) 0 0 0%Q 7 [] 4 2);
    [exact Hwf|reflexivity|lia|lia|simpl; lia|simpl; lia|left; simpl; lia].
Defined.

(** ** Grids that work *)



(** X5. Under the same conditions, the work on one section of the grid
    (lines 146-206: slice, iterations on the expanded bounds, merge)
    succeeds and changes no pixel of the output image outside the
    section's un-expanded bounds. *)
Theorem section_changes_only_interior {WCS RNG Sensor SED Bandpass : Type}
    (E : Ext WCS RNG Sensor SED Bandpass) (self : Builder SED)
    (base : Base WCS Sensor Bandpass) (sampler : option (SED * Bandpass))
    (niter : Z) (counts_per_iter : Q) (base_image : Image WCS)
    (ncol nrow i j : Z) (s : State WCS RNG Sensor) :
  ext_shapes E ->
  0 < nx self <= ncol -> 0 < ny self <= nrow -> 0 <= buffer_size self ->
  wf_image base_image ->
  bounds base_image = withBorder (mkBoundsI 1 ncol 1 nrow) (buffer_size self) ->
  (i, j) ∈ grid (nx self) (ny self) ->
  wf_image (st_image s) -> bounds (st_image s) = mkBoundsI 1 ncol 1 nrow ->
  exists s',
    do_section E self base sampler niter counts_per_iter base_image ncol nrow
               (ncol / nx self) (nrow / ny self) i j s = (s', Ok tt) /\
    wf_image (st_image s') /\
    bounds (st_image s') = mkBoundsI 1 ncol 1 nrow /\
    forall x y,
      includes_pos (sec_bounds ncol nrow (nx self) (ny self) i j) x y = false ->
      getValue (st_image s') x y = getValue (st_image s) x y.
Proof.
  intros Hshapes Hnx Hny Hbuf Hwb Hbb Hij Hws Hbs.
  by apply do_section_ok.
Qed.

Lemma section_changes_only_interior_witness :
  ext_shapes toy /\
  0 < nx (toy_builder None) <= 4 /\ 0 < ny (toy_builder None) <= 2 /\
  0 <= buffer_size (toy_builder None) /\
  wf_image (make_base_image toy (toy_builder None) toy_image (3 # 2)) /\
  bounds (make_base_image toy (toy_builder None) toy_image (3 # 2))
  = withBorder (mkBoundsI 1 4 1 2) (buffer_size (toy_builder None)) /\
  (1, 0) ∈ grid (nx (toy_builder None)) (ny (toy_builder None)) /\
  wf_image (st_image toy_state) /\
  bounds (st_image toy_state) = mkBoundsI 1 4 1 2 /\
  exists s',
    do_section toy (toy_builder None) (toy_base None) None 2 (3 # 2)
               (make_base_image toy (toy_builder None) toy_image (3 # 2)) 4 2
               (4 / nx (toy_builder None)) (2 / ny (toy_builder None)) 1 0
               toy_state = (s', Ok tt) /\
    wf_image (st_image s') /\
    bounds (st_image s') = mkBoundsI 1 4 1 2 /\
    forall x y,
      includes_pos (sec_bounds 4 2 (nx (toy_builder None)) (ny (toy_builder None))
                               1 0) x y = false ->
      getValue (st_image s') x y = getValue (st_image toy_state) x y.
Proof.
  assert (Hwb : wf_image (make_base_image toy (toy_builder None) toy_image (3 # 2)))
    by (split; [reflexivity|repeat constructor]).
  assert (Hws : wf_image (st_image toy_state))
    by (split; [reflexivity|repeat constructor]).
  assert (Hij : (1, 0) ∈ grid (nx (toy_builder None)) (ny (toy_builder None)))
    by (apply elem_of_grid; simpl; lia).
  split; [exact toy_shapes|]. split; [simpl; lia|]. split; [simpl; lia|].
  split; [simpl; lia|]. split; [exact Hwb|]. split; [reflexivity|].
  split; [exact Hij|]. split; [exact Hws|]. split; [reflexivity|].
  apply (section_changes_only_interior toy (toy_builder None) (toy_base None)
           None 2 (3 # 2)
           (make_base_image toy (toy_builder None) toy_image (3 # 2))
           4 2 1 0 toy_state);
    [exact toy_shapes|simpl; lia|simpl; lia|simpl; lia|exact Hwb|reflexivity
    |exact Hij|exact Hws|reflexivity].
Defined.

(** ** The slice of the base image *)

(** X6. For positive image and grid dimensions and a non-negative buffer,
    the expanded bounds of every section of the grid lie inside the bounds
    of the base image (the image bounds grown by the same buffer) as soon as
    they are defined, so the slice of line 153 can fail only on empty
    bounds; and when the grid is no finer than the image, every section is
    non-empty, lies inside the image and inside its own expanded bounds. *)
Theorem section_slice_fits (ncol nrow nx ny b i j : Z) :
  0 < ncol -> 0 < nrow -> 0 < nx -> 0 < ny -> 0 <= b ->
  (i, j) ∈ grid nx ny ->
  includes (withBorder (mkBoundsI 1 ncol 1 nrow) b)
           (withBorder (sec_bounds ncol nrow nx ny i j) b)
  = isDefined (withBorder (sec_bounds ncol nrow nx ny i j) b) /\
  (nx <= ncol -> ny <= nrow ->
   includes (mkBoundsI 1 ncol 1 nrow) (sec_bounds ncol nrow nx ny i j) = true /\
   includes (withBorder (sec_bounds ncol nrow nx ny i j) b)
            (sec_bounds ncol nrow nx ny i j) = true).
Proof.
  intros Hc Hr Hnx Hny Hb Hij. apply elem_of_grid in Hij as [Hi Hj].
  destruct (axis_step ncol nx Hc Hnx) as [Hdx Hndx].
  destruct (axis_step nrow ny Hr Hny) as [Hdy Hndy].
  split.
  - destruct (isDefined _) eqn:Hdef.
    + apply isDefined_spec in Hdef. apply includes_spec.
      simpl in *. unfold col_min, col_max in *.
      destruct (Z.eqb_spec i (nx - 1)), (Z.eqb_spec j (ny - 1)); nia.
    + destruct (includes _ _) eqn:Hinc; [|done].
      apply includes_spec in Hinc.
      assert (isDefined (withBorder (sec_bounds ncol nrow nx ny i j) b) = true)
        by (apply isDefined_spec; lia).
      congruence.
  - intros Hx Hy.
    pose proof (col_bounds_ok ncol nx i Hnx Hx Hi) as Hcx.
    pose proof (col_bounds_ok nrow ny j Hny Hy Hj) as Hcy.
    split; apply includes_spec; simpl; lia.
Qed.

Lemma section_slice_fits_witness :
  0 < 10 /\ 0 < 7 /\ 0 < 4 /\ 0 < 3 /\ 0 <= 2 /\ (3, 2) ∈ grid 4 3 /\
  includes (withBorder (mkBoundsI 1 10 1 7) 2)
           (withBorder (sec_bounds 10 7 4 3 3 2) 2)
  = isDefined (withBorder (sec_bounds 10 7 4 3 3 2) 2) /\
  (4 <= 10 -> 3 <= 7 ->
   includes (mkBoundsI 1 10 1 7) (sec_bounds 10 7 4 3 3 2) = true /\
   includes (withBorder (sec_bounds 10 7 4 3 3 2) 2)
            (sec_bounds 10 7 4 3 3 2) = true).
Proof.
  assert (Hij : (3, 2) ∈ grid 4 3) by (apply elem_of_grid; lia).
  do 5 (split; [lia|]). split; [exact Hij|].
  apply (section_slice_fits 10 7 4 3 2 3 2); [lia|lia|lia|lia|lia|exact Hij].
Defined.

(** ** A flat without noise or sensor effects *)

Lemma at2_amap (f : Q -> Q) a i j : at2 (amap f a) i j = f <$> at2 a i j.
Proof.
  unfold at2, amap. rewrite list_lookup_fmap.
  destruct (a !! i) as [row|]; simpl; [|done]. by rewrite list_lookup_fmap.
Qed.

Lemma getValue_amap {WCS : Type} (f : Q -> Q) (im : Image WCS) x y :
  getValue (with_array im (amap f (array im))) x y = f <$> getValue im x y.
Proof.
  unfold getValue. simpl. destruct (includes_pos (bounds im) x y); [|done].
  apply at2_amap.
Qed.

Lemma getValue_map2 {WCS : Type} (f : Q -> Q -> Q) (im t : Image WCS) x y :
  bounds im = bounds t ->
  getValue (with_array im (map2 f (array im) (array t))) x y
  = (v ← getValue im x y; w ← getValue t x y; Some (f v w)).
Proof.
  intros Hb. unfold getValue. simpl. rewrite <- Hb.
  destruct (includes_pos (bounds im) x y); [|done]. apply at2_map2.
Qed.

(** [merge_section] pixel by pixel, inside and outside [sec]. *)
Lemma merge_section_pixels {WCS RNG Sensor : Type}
    (s : State WCS RNG Sensor) (sec : BoundsI) (section : Image WCS) :
  wf_image (st_image s) -> wf_image section ->
  includes (bounds (st_image s)) sec = true ->
  includes (bounds section) sec = true ->
  exists s',
    merge_section sec section s = (s', Ok tt) /\
    wf_image (st_image s') /\
    bounds (st_image s') = bounds (st_image s) /\
    (forall x y, includes_pos sec x y = true ->
       exists v w, getValue (st_image s) x y = Some v /\
                   getValue section x y = Some w /\
                   getValue (st_image s') x y = Some (v + w)%Q) /\
    (forall x y, includes_pos sec x y = false ->
       getValue (st_image s') x y = getValue (st_image s) x y).
Proof.
  intros Hwi Hws Hii His.
  destruct (iadd_sub_spec (st_image s) sec section Hwi Hws Hii His)
    as (image' & Hadd & Hb & Hw & Hwf & Hin & Hout).
  assert (Hii' : includes (bounds image') sec = true) by by rewrite Hb.
  destruct (subImage_spec image' sec Hwf Hii') as (view & Hview & _).
  unfold merge_section, mbind, M_bind, get, lift, set_image, modify, log.
  rewrite Hadd. simpl. rewrite Hview. simpl.
  eexists. split; [reflexivity|]. simpl. auto.
Qed.

Section QuietSection.
Context {WCS RNG Sensor SED Bandpass : Type}.
Variable E : Ext WCS RNG Sensor SED Bandpass.
Hypothesis Hquiet : noise_free E.
Hypothesis Hscalar : scalar_areas E.

Variables (base : Base WCS Sensor Bandpass) (cpi : Q).
Variables (base_image temp : Image WCS) (sec bnds : BoundsI).
Hypothesis Hbase : wf_image base_image.
Hypothesis Hbnds : includes (bounds base_image) bnds = true.
Hypothesis Hsec : includes bnds sec = true.
Hypothesis Htemp : subImage base_image bnds = Ok temp.

Lemma temp_facts :
  bounds temp = bnds /\ wf_image temp /\
  forall x y, includes_pos bnds x y = true ->
              getValue temp x y = getValue base_image x y.
Proof using Hbase Hbnds Htemp.
  destruct (subImage_spec base_image bnds Hbase Hbnds)
    as (v & Hv & Hb & _ & Hw & Hp).
  rewrite Htemp in Hv. injection Hv as <-. done.
Qed.

(** One iteration adds the slice of the base image to the accumulator. *)
Lemma mean_level_iteration_quiet (section : Image WCS) s :
  wf_image section -> bounds section = bnds ->
  exists s',
    mean_level_iteration E base base_image sec bnds section s
    = (s', Ok (with_array section (map2 Qplus (array section) (array temp)))) /\
    st_image s' = st_image s.
Proof using Hquiet Hscalar Hbase Hbnds Hsec Htemp.
  intros Hws Hbs. destruct temp_facts as (Hbt & Hwt & _).
  unfold mean_level_iteration.
  unfold mbind at 1, M_bind at 1, get.
  unfold mbind at 1, M_bind at 1, lift at 1.
  unfold expected_increment. rewrite Htemp.
  destruct (Hscalar (st_sensor s) section) as [a ->]. simpl.
  rewrite Hquiet.
  unfold mbind at 1, M_bind at 1, set_rng, modify.
  destruct (iop_ok Qplus section (with_array temp (array temp)))
    as (section' & Hadd & Hws' & Hbs' & _).
  { exact Hws. }
  { simpl. rewrite Hbs, <- Hbt. exact Hwt. }
  unfold mbind at 1, M_bind at 1, lift at 1. unfold iadd. rewrite Hadd.
  assert (Hsec' : section'
                  = with_array section (map2 Qplus (array section) (array temp))).
  { unfold iop in Hadd. case_bool_decide; [|done]. by injection Hadd as <-. }
  destruct (subImage_spec section' sec Hws') as (view & Hview & _).
  { rewrite Hbs', Hbs. exact Hsec. }
  unfold mbind at 1, M_bind at 1, lift at 1. rewrite Hview.
  unfold mbind, M_bind, log, modify, mret, M_ret. simpl.
  eexists. split; [by rewrite Hsec'|done].
Qed.

Lemma iterations_quiet (its : list Z) :
  forall (section : Image WCS) s k,
    wf_image section -> bounds section = bnds -> multiple_of section temp k ->
    exists s' section',
      for_acc its (iteration E base None cpi base_image sec bnds) section s
      = (s', Ok section') /\
      wf_image section' /\ bounds section' = bnds /\
      st_image s' = st_image s /\
      multiple_of section' temp (k + Z.of_nat (length its)).
Proof using Hquiet Hscalar Hbase Hbnds Hsec Htemp.
  destruct temp_facts as (Hbt & Hwt & _).
  induction its as [|it its IH]; intros section s k Hws Hbs Hmul; simpl.
  - eexists _, _. split; [reflexivity|].
    split; [done|]. split; [done|]. split; [done|].
    replace (k + Z.of_nat 0) with k by lia. done.
  - unfold mbind at 1, M_bind at 1. unfold iteration at 1.
    unfold mbind at 1, M_bind at 1, log at 1, modify at 1.
    set (s0 := mkState _ _ _ _).
    destruct (mean_level_iteration_quiet section s0 Hws Hbs) as (s1 & Hrun & Hi1).
    rewrite Hrun.
    set (section1 := with_array section (map2 Qplus (array section) (array temp))).
    assert (Hw1 : wf_image section1).
    { unfold wf_image, section1. simpl. apply wf_map2; [exact Hws|].
      rewrite Hbs, <- Hbt. exact Hwt. }
    assert (Hmul1 : multiple_of section1 temp (k + 1)).
    { intros x y Hxy. destruct (Hmul x y Hxy) as (w & t & Hw & Ht & Hwt').
      exists (w + t)%Q, t. split; [|split; [done|]].
      - unfold section1. rewrite getValue_map2 by congruence.
        rewrite Hw. simpl. rewrite Ht. done.
      - rewrite Hwt', inject_Z_plus. ring. }
    destruct (IH section1 s1 (k + 1) Hw1 Hbs Hmul1)
      as (s' & section' & Hrest & Hw' & Hb' & Hi' & Hmul').
    rewrite Hrest. eexists _, _. split; [reflexivity|].
    split; [done|]. split; [done|]. split; [by rewrite Hi', Hi1|].
    replace (k + Z.of_nat (S (length its))) with (k + 1 + Z.of_nat (length its))
      by lia. done.
Qed.
End QuietSection.

Lemma for_prefix_inv {S A : Type} (I : list A -> S -> Prop) (xs : list A)
    (body : A -> M S unit) :
  (forall pre x post s, xs = pre ++ x :: post -> I pre s ->
     exists s', body x s = (s', Ok tt) /\ I (pre ++ [x]) s') ->
  forall s, I [] s -> exists s', for_ xs body s = (s', Ok tt) /\ I xs s'.
Proof.
  intros Hbody.
  assert (Hgen : forall rest pre s, xs = pre ++ rest -> I pre s ->
             exists s', for_ rest body s = (s', Ok tt) /\ I xs s').
  { induction rest as [|x rest IH]; intros pre s Hxs Hpre; simpl.
    - rewrite app_nil_r in Hxs. subst pre. by exists s.
    - destruct (Hbody pre x rest s Hxs Hpre) as (s1 & Hrun & H1).
      unfold mbind, M_bind. rewrite Hrun.
      apply (IH (pre ++ [x])); [|done]. by rewrite <- app_assoc. }
  intros s Hs. by apply (Hgen xs []).
Qed.

Lemma NoDup_range (n : Z) : NoDup (range n).
Proof.
  unfold range. apply NoDup_fmap; [|apply NoDup_seq].
  intros a b. lia.
Qed.

Lemma NoDup_grid (nx ny : Z) : NoDup (grid nx ny).
Proof.
  unfold grid. apply NoDup_bind.
  - intros i1 i2 ij _ _ H1 H2.
    apply list_elem_of_bind in H1 as (j1 & H1 & _).
    apply list_elem_of_bind in H2 as (j2 & H2 & _).
    apply list_elem_of_singleton in H1, H2. congruence.
  - intros i _. apply NoDup_bind.
    + intros j1 j2 ij _ _ H1 H2.
      apply list_elem_of_singleton in H1, H2. congruence.
    + intros j _. apply NoDup_singleton.
    + apply NoDup_range.
  - apply NoDup_range.
Qed.

(** The two halves of the tiling, for use in the loop invariant. *)
Lemma sec_bounds_cover (ncol nrow nx ny x y : Z) :
  0 < ncol -> 0 < nrow -> 0 < nx -> 0 < ny ->
  1 <= x <= ncol -> 1 <= y <= nrow ->
  exists ij, ij ∈ grid nx ny /\
             includes_pos (sec_bounds ncol nrow nx ny ij.1 ij.2) x y = true.
Proof.
  intros Hc Hr Hnx Hny Hx Hy.
  destruct (axis_cover ncol nx Hc Hnx x Hx) as (i & Hi & Hxi).
  destruct (axis_cover nrow ny Hr Hny y Hy) as (j & Hj & Hyj).
  exists (i, j). split; [by apply elem_of_grid|].
  apply includes_pos_spec. simpl. lia.
Qed.

Lemma sec_bounds_disjoint (ncol nrow nx ny x y : Z) (ij ij' : Z * Z) :
  0 < ncol -> 0 < nrow -> 0 < nx -> 0 < ny ->
  ij ∈ grid nx ny -> ij' ∈ grid nx ny ->
  includes_pos (sec_bounds ncol nrow nx ny ij.1 ij.2) x y = true ->
  includes_pos (sec_bounds ncol nrow nx ny ij'.1 ij'.2) x y = true ->
  ij = ij'.
Proof.
  intros Hc Hr Hnx Hny Hij Hij' H1 H2.
  destruct ij as [i j], ij' as [i' j'].
  apply elem_of_grid in Hij as [Hi Hj], Hij' as [Hi' Hj'].
  apply includes_pos_spec in H1, H2. simpl in H1, H2.
  destruct H1 as [Hx1 Hy1], H2 as [Hx2 Hy2].
  f_equal.
  - exact (axis_disjoint ncol nx Hc Hnx i i' x Hi Hi' Hx1 Hx2).
  - exact (axis_disjoint nrow ny Hr Hny j j' y Hj Hj' Hy1 Hy2).
Qed.

Section QuietRun.
Context {WCS RNG Sensor SED Bandpass : Type}.
Variable E : Ext WCS RNG Sensor SED Bandpass.
Hypothesis Hshapes : ext_shapes E.
Hypothesis Hquiet : noise_free E.
Hypothesis Hscalar : scalar_areas E.

Variable self : Builder SED.
Variables ncol nrow : Z.
Hypothesis Hnx : 0 < nx self <= ncol.
Hypothesis Hny : 0 < ny self <= nrow.
Hypothesis Hbuf : 0 <= buffer_size self.

Let B := mkBoundsI 1 ncol 1 nrow.

Variables (base : Base WCS Sensor Bandpass) (niter : Z) (cpi : Q).
Variable base_image : Image WCS.
Hypothesis Hwb : wf_image base_image.
Hypothesis Hbb : bounds base_image = withBorder B (buffer_size self).

Let K := Z.of_nat (Z.to_nat niter).

Lemma do_section_quiet i j (s : State WCS RNG Sensor) :
  (i, j) ∈ grid (nx self) (ny self) ->
  wf_image (st_image s) -> bounds (st_image s) = B ->
  exists s',
    do_section E self base None niter cpi base_image ncol nrow
               (ncol / nx self) (nrow / ny self) i j s = (s', Ok tt) /\
    wf_image (st_image s') /\ bounds (st_image s') = B /\
    (forall x y,
        includes_pos (sec_bounds ncol nrow (nx self) (ny self) i j) x y = true ->
        exists v b v',
          getValue (st_image s) x y = Some v /\
          getValue base_image x y = Some b /\
          getValue (st_image s') x y = Some v' /\
          (v' == v + inject_Z K * b)%Q) /\
    (forall x y,
        includes_pos (sec_bounds ncol nrow (nx self) (ny self) i j) x y = false ->
        getValue (st_image s') x y = getValue (st_image s) x y).
Proof using Hshapes Hquiet Hscalar Hnx Hny Hbuf Hwb Hbb.
  intros Hij Hwi Hbi. apply elem_of_grid in Hij as [Hi Hj].
  unfold do_section. fold (sec_bounds ncol nrow (nx self) (ny self) i j).
  set (sec := sec_bounds ncol nrow (nx self) (ny self) i j).
  set (bnds := withBorder sec (buffer_size self)).
  pose proof (col_bounds_ok ncol (nx self) i ltac:(lia) ltac:(lia) Hi) as Hx.
  pose proof (col_bounds_ok nrow (ny self) j ltac:(lia) ltac:(lia) Hj) as Hy.
  assert (Hsec_in : includes B sec = true)
    by (apply includes_spec; simpl; lia).
  assert (Hbnds : includes (bounds base_image) bnds = true)
    by (rewrite Hbb; apply includes_spec; simpl; lia).
  assert (Hsec : includes bnds sec = true)
    by (apply includes_spec; simpl; lia).
  unfold mbind at 1, M_bind at 1, log at 1, modify at 1.
  destruct (subImage_spec base_image bnds Hwb Hbnds)
    as (temp & Htemp & Hbt & _ & Hwt & Hpt).
  unfold mbind at 1, M_bind at 1, lift at 1. rewrite Htemp.
  set (s0 := mkState _ _ _ _).
  assert (Hzero : multiple_of (setZero temp) temp 0).
  { intros x y Hxy. destruct (getValue_wf temp x y Hwt Hxy) as [t Ht].
    exists 0%Q, t. unfold setZero. rewrite getValue_amap, Ht.
    split; [done|]. split; [done|]. ring. }
  destruct (iterations_quiet E Hquiet Hscalar base cpi base_image temp sec bnds
              Hwb Hbnds Hsec Htemp (range niter) (setZero temp) s0 0)
    as (s1 & section1 & Hits & Hw1 & Hb1 & Hi1 & Hmul).
  { unfold setZero, wf_image. simpl. by apply wf_amap. }
  { exact Hbt. }
  { exact Hzero. }
  unfold mbind at 1, M_bind at 1. rewrite Hits.
  replace (0 + Z.of_nat (length (range niter))) with K in Hmul
    by (unfold K, range; rewrite length_fmap, length_seq; lia).
  destruct (merge_section_pixels s1 sec section1)
    as (s' & Hm & Hw' & Hb' & Hin & Hout).
  - rewrite Hi1. exact Hwi.
  - exact Hw1.
  - rewrite Hi1. simpl. rewrite Hbi. exact Hsec_in.
  - rewrite Hb1. exact Hsec.
  - exists s'. split; [exact Hm|]. rewrite Hi1 in Hb', Hin, Hout.
    simpl in Hb', Hin, Hout.
    split; [exact Hw'|]. split; [congruence|]. split; [|exact Hout].
    intros x y Hxy. destruct (Hin x y Hxy) as (v & w & Hv & Hw & Hv').
    assert (Hxyb : includes_pos (bounds temp) x y = true).
    { rewrite Hbt. apply includes_pos_spec in Hxy. apply includes_spec in Hsec.
      apply includes_pos_spec. lia. }
    destruct (Hmul x y Hxyb) as (w1 & t & Hw1' & Ht & Hwt').
    rewrite Hw in Hw1'. injection Hw1' as <-.
    rewrite Hpt in Ht by (by rewrite <- Hbt).
    exists v, t, (v + w)%Q. split; [done|]. split; [done|]. split; [done|].
    by rewrite Hwt'.
Qed.

(** What the loops have done to a pixel after the sections [done]. *)
Let Inv (image : Image WCS) (done : list (Z * Z)) (s : State WCS RNG Sensor)
  : Prop :=
  wf_image (st_image s) /\ bounds (st_image s) = B /\
  forall x y, includes_pos B x y = true ->
    exists v0 b v,
      getValue image x y = Some v0 /\
      getValue base_image x y = Some b /\
      getValue (st_image s) x y = Some v /\
      ((exists ij, ij ∈ done /\
          includes_pos (sec_bounds ncol nrow (nx self) (ny self) ij.1 ij.2) x y
          = true) ->
       (v == v0 + inject_Z K * b)%Q) /\
      ((forall ij, ij ∈ done ->
          includes_pos (sec_bounds ncol nrow (nx self) (ny self) ij.1 ij.2) x y
          = false) ->
       (v == v0)%Q).

Lemma sections_quiet (image : Image WCS) (s : State WCS RNG Sensor) :
  wf_image image -> bounds image = B -> st_image s = image ->
  exists s',
    for_ (grid (nx self) (ny self))
      (fun ij => do_section E self base None niter cpi base_image ncol nrow
                   (ncol / nx self) (nrow / ny self) ij.1 ij.2) s
    = (s', Ok tt) /\
    forall x y, 1 <= x <= ncol -> 1 <= y <= nrow ->
      exists v0 b v,
        getValue image x y = Some v0 /\
        getValue base_image x y = Some b /\
        getValue (st_image s') x y = Some v /\
        (v == v0 + inject_Z K * b)%Q.
Proof using Hshapes Hquiet Hscalar Hnx Hny Hbuf Hwb Hbb.
  intros Hwi Hbi Hs.
  assert (Hc : 0 < ncol) by lia. assert (Hr : 0 < nrow) by lia.
  destruct (for_prefix_inv (Inv image) (grid (nx self) (ny self))
              (fun ij => do_section E self base None niter cpi base_image
                           ncol nrow (ncol / nx self) (nrow / ny self)
                           ij.1 ij.2)) with (s := s)
    as (s' & Hrun & Hw' & Hb' & Hpix).
  - (* one more section *)
    intros pre [i j] post s0 Hgrid (Hw0 & Hb0 & Hpix0).
    assert (Hij : (i, j) ∈ grid (nx self) (ny self)).
    { rewrite Hgrid. apply elem_of_app. right. apply list_elem_of_here. }
    assert (Hfresh : (i, j) ∉ pre).
    { pose proof (NoDup_grid (nx self) (ny self)) as Hnd. rewrite Hgrid in Hnd.
      apply NoDup_app in Hnd as (_ & Hnd & _). intros Hin.
      apply (Hnd _ Hin). apply list_elem_of_here. }
    destruct (do_section_quiet i j s0 Hij Hw0 Hb0)
      as (s1 & Hrun & Hw1 & Hb1 & Hin & Hout).
    exists s1. split; [exact Hrun|]. split; [exact Hw1|]. split; [exact Hb1|].
    intros x y Hxy. destruct (Hpix0 x y Hxy) as (v0 & b & v & Hv0 & Hb & Hv & Hcov & Hnot).
    destruct (includes_pos (sec_bounds ncol nrow (nx self) (ny self) i j) x y)
      eqn:Hhere.
    + destruct (Hin x y Hhere) as (v1 & b1 & v' & Hv1 & Hb1' & Hv' & Hsum).
      rewrite Hv in Hv1. injection Hv1 as <-.
      rewrite Hb in Hb1'. injection Hb1' as <-.
      exists v0, b, v'. split; [done|]. split; [done|]. split; [done|].
      assert (Hold : (v == v0)%Q).
      { apply Hnot. intros ij Hpre.
        destruct (includes_pos
                    (sec_bounds ncol nrow (nx self) (ny self) ij.1 ij.2) x y)
          eqn:Hthere; [|done]. exfalso.
        assert (Hijg : ij ∈ grid (nx self) (ny self)).
        { rewrite Hgrid. apply elem_of_app. by left. }
        pose proof (sec_bounds_disjoint ncol nrow (nx self) (ny self) x y
                      ij (i, j) Hc Hr ltac:(lia) ltac:(lia) Hijg Hij Hthere Hhere).
        subst ij. done. }
      split.
      * intros _. by rewrite Hsum, Hold.
      * intros Hall. specialize (Hall (i, j)). simpl in Hall.
        rewrite Hhere in Hall. discriminate Hall.
        apply elem_of_app. right. apply list_elem_of_here.
    + exists v0, b, v. split; [done|]. split; [done|].
      split; [by rewrite (Hout x y Hhere)|]. split.
      * intros (ij & Hijin & Hthere). apply Hcov.
        apply elem_of_app in Hijin as [Hpre|Hnew]; [by eauto|].
        apply list_elem_of_singleton in Hnew. subst ij. simpl in Hthere.
        congruence.
      * intros Hall. apply Hnot. intros ij Hpre. apply Hall.
        apply elem_of_app. by left.
  - (* before the first section *)
    unfold Inv. rewrite Hs. split; [exact Hwi|]. split; [exact Hbi|].
    intros x y Hxy. destruct (getValue_wf image x y Hwi) as [v0 Hv0].
    { by rewrite Hbi. }
    destruct (getValue_wf base_image x y Hwb) as [b Hb].
    { rewrite Hbb. apply includes_pos_spec in Hxy. apply includes_pos_spec.
      simpl in *. lia. }
    exists v0, b, v0. split; [done|]. split; [done|]. split; [done|]. split.
    + intros (ij & Hin & _). by apply elem_of_nil in Hin.
    + intros _. reflexivity.
  - exists s'. split; [exact Hrun|]. intros x y Hx Hy.
    assert (Hxy : includes_pos B x y = true)
      by (apply includes_pos_spec; simpl; lia).
    destruct (Hpix x y Hxy) as (v0 & b & v & Hv0 & Hb & Hv & Hcov & _).
    exists v0, b, v. split; [done|]. split; [done|]. split; [done|].
    apply Hcov.
    by apply sec_bounds_cover; try lia.
Qed.
End QuietRun.

Lemma iteration_plan_facts (counts_per_pixel max_counts_per_iter : Q)
    (niter : Z) (counts_per_iter : Q) :
  (0 < counts_per_pixel)%Q -> (0 < max_counts_per_iter)%Q ->
  iteration_plan counts_per_pixel max_counts_per_iter
  = Ok (niter, counts_per_iter) ->
  1 <= niter /\ (inject_Z niter * counts_per_iter == counts_per_pixel)%Q.
Proof.
  intros Hc Hm. unfold iteration_plan.
  rewrite pydiv_nonzero by (intros H; rewrite H in Hm; by apply Qlt_irrefl in Hm).
  simpl.
  assert (Hr : (0 < counts_per_pixel / max_counts_per_iter)%Q).
  { unfold Qdiv. apply Qmult_lt_0_compat; [done|]. by apply Qinv_lt_0_compat. }
  apply Qceiling_pos in Hr.
  assert (Hnz : ~ (inject_Z (Qceiling (counts_per_pixel / max_counts_per_iter))
                   == 0)%Q).
  { change 0%Q with (inject_Z 0). rewrite inject_Z_injective. lia. }
  rewrite pydiv_nonzero by done. intros [= <- <-].
  split; [done|]. field. exact Hnz.
Qed.

Lemma quiet_shapes : ext_shapes quiet.
Proof.
  split; [|split; [|split]].
  - intros sensor im a Him Ha. discriminate Ha.
  - intros sensor photons im r Him. simpl.
    apply wf_imap_rows; [|done]. intros i row. by rewrite length_imap.
  - intros w im sky Him. simpl.
    apply wf_imap_rows; [|done]. intros i row. by rewrite length_fmap.
  - intros base im var r Him. exact Him.
Qed.



(** ** What [setup] does to the configuration *)

Lemma set_nrecalc_frame (config config' : gmap string Value) (nrecalc : Q)
    (logger logger' : list LogRecord) :
  set_nrecalc config nrecalc logger = Ok (config', logger') ->
  (forall k, k <> "sensor"%string -> config' !! k = config !! k) /\
  (forall d, config !! "sensor"%string = Some (VDict d) ->
     exists d', config' !! "sensor"%string = Some (VDict d') /\
                (forall k, k <> "nrecalc"%string -> d' !! k = d !! k) /\
                (forall v, d !! "nrecalc"%string = Some v ->
                           d' !! "nrecalc"%string = Some v)) /\
  (forall nrecalc2 logger2,
      set_nrecalc config' nrecalc2 logger2 = Ok (config', logger2)).
Proof.
  unfold set_nrecalc.
  destruct (config !! "sensor"%string) as [[q|str|d]|] eqn:Hsensor.
  - done.
  - destruct (String.index 0 "nrecalc" str) eqn:Hidx; [|done].
    intros [= <- <-]. split; [done|]. split; [done|].
    intros q2 l2. by rewrite Hsensor, Hidx.
  - destruct (d !! "nrecalc"%string) as [v|] eqn:Hv.
    + intros [= <- <-]. split; [done|]. split.
      * intros d0 [= <-]. eauto.
      * intros q2 l2. by rewrite Hsensor, Hv.
    + intros [= <- <-]. split; [|split].
      * intros k Hk. by rewrite lookup_insert_ne.
      * intros d0 [= <-]. eexists. split; [by rewrite lookup_insert_eq|].
        split.
        -- intros k Hk. by rewrite lookup_insert_ne.
        -- intros v Hv'. congruence.
      * intros q2 l2. rewrite lookup_insert_eq, lookup_insert_eq. done.
  - intros [= <- <-]. split; [done|]. split; [done|].
    intros q2 l2. by rewrite Hsensor.
Qed.

Lemma setup_inv {WCS Sensor SED Bandpass : Type}
    (GetAllParams : gmap string Value -> Base WCS Sensor Bandpass ->
                    list (string * pytype) -> list (string * pytype) ->
                    list string -> result Params)
    (BuildSED : gmap string Value -> string -> Base WCS Sensor Bandpass ->
                result SED)
    (config : gmap string Value) (base : Base WCS Sensor Bandpass)
    (image_num obj_num : Z) (ignore : list string) (logger : list LogRecord)
    self config' logger' size :
  setup GetAllParams BuildSED config base image_num obj_num ignore logger
  = Ok (self, config', logger', size) ->
  size = (xsize self, ysize self) /\
  exists logger0,
    set_nrecalc config
      (max_counts_per_iter self * inject_Z (xsize self) * inject_Z (ysize self))%Q
      logger0 = Ok (config', logger').
Proof.
  unfold setup.
  destruct (GetAllParams _ _ _ _ _) as [params|e]; simpl; [|done].
  destruct (config !! "sed"%string) as [v|].
  - destruct (BuildSED config "sed"%string base) as [s|e]; simpl; [|done].
    destruct (set_nrecalc _ _ _) as [[c l]|e] eqn:Hn; simpl; [|done].
    intros [= <- <- <- <-]. simpl. eauto.
  - simpl. destruct (set_nrecalc _ _ _) as [[c l]|e] eqn:Hn; simpl; [|done].
    intros [= <- <- <- <-]. simpl. eauto.
Qed.



(** ** From the configuration to the flat *)

Lemma ImageF_size_ok {WCS : Type} (ncol nrow : Z) (w : WCS) :
  0 < ncol -> 0 < nrow ->
  exists image,
    ImageF_size ncol nrow w = Ok image /\
    bounds image = mkBoundsI 1 ncol 1 nrow /\ wf_image image.
Proof.
  intros Hc Hr. unfold ImageF_size.
  destruct (Z.ltb_spec ncol 0); [lia|]. destruct (Z.ltb_spec nrow 0); [lia|].
  simpl. eexists. split; [reflexivity|]. split; [done|].
  unfold wf_image, wf_array, zeros. simpl.
  rewrite numpyShape_defined by (apply isDefined_spec; simpl; lia). simpl. split.
  - rewrite length_replicate. lia.
  - apply Forall_replicate. rewrite length_replicate. lia.
Qed.



(** * Properties of [optical_system.py] *)

(** ** The field-of-view guard and the interpolated coefficients *)

Lemma lookup_drop_map_seq {A : Type} (F : nat -> A) (n d k : nat) :
  (k < n - d)%nat -> drop d (F <$> seq 0 n) !! k = Some (F (d + k)%nat).
Proof.
  intros Hk. rewrite lookup_drop, list_lookup_fmap.
  rewrite lookup_seq_lt by lia. done.
Qed.

(** X10. [_interp_nominal_coeff] raises [ValueError] exactly when
    [|fp_x|] or [|fp_y|] exceeds 1.75 (the bound itself is accepted), before
    any interpolation; otherwise it returns, for a table of [n] planes,
    [n - 3] values of which the [k]-th is the linear interpolation of plane
    [k + 3] on the sampling grid: the first three planes are dropped, so a
    table of 22 planes yields the 19 coefficients z = 4 .. 22. *)
Theorem interp_nominal_coeff_spec
    (interp2d : list Q -> list Q -> list (list Q) -> interp_kind -> Q -> Q -> Q)
    (zemax_est : list (list (list Q))) (fp_x fp_y : Q) :
  ((Qabs fp_x <= max_fov)%Q /\ (Qabs fp_y <= max_fov)%Q ->
   exists out,
     _interp_nominal_coeff interp2d zemax_est fp_x fp_y = Done out /\
     length out = ((shape3 zemax_est).2 - 3)%nat /\
     ((shape3 zemax_est).2 = 22%nat -> length out = 19%nat) /\
     forall k, (k < length out)%nat ->
       out !! k = Some (interp2d x_sampling y_sampling
                          (plane zemax_est (3 + k)) Linear fp_x fp_y)) /\
  (~ ((Qabs fp_x <= max_fov)%Q /\ (Qabs fp_y <= max_fov)%Q) ->
   _interp_nominal_coeff interp2d zemax_est fp_x fp_y
   = Fail (PyValueError "Given coordinates are outside the field of view.")).
Proof.
  unfold _interp_nominal_coeff.
  destruct (Qle_bool (Qabs fp_x) max_fov) eqn:Hx;
    destruct (Qle_bool (Qabs fp_y) max_fov) eqn:Hy; simpl.
  - split; [|intros H; exfalso; apply H; split; by apply Qle_bool_iff].
    intros _. eexists. split; [reflexivity|].
    assert (Hlen : length (drop 3
                     ((fun i => interp2d x_sampling y_sampling
                                  (plane zemax_est i) Linear fp_x fp_y)
                        <$> seq 0 (shape3 zemax_est).2))
                   = ((shape3 zemax_est).2 - 3)%nat).
    { by rewrite length_drop, length_fmap, length_seq. }
    split; [exact Hlen|].
    split; [intros H22; etrans; [exact Hlen|];
            exact (f_equal (fun n => (n - 3)%nat) H22)|].
    intros k Hk.
    assert (Hk' : (k < (shape3 zemax_est).2 - 3)%nat).
    { eapply Nat.lt_le_trans; [exact Hk|]. apply Nat.eq_le_incl. exact Hlen. }
    exact (lookup_drop_map_seq _ _ _ _ Hk').
  - split; [|done]. intros [_ H]. apply Qle_bool_iff in H. congruence.
  - split; [|done]. intros [H _]. apply Qle_bool_iff in H. congruence.
  - split; [|done]. intros [H _]. apply Qle_bool_iff in H. congruence.
Qed.

(** ** The sampling grid *)

(** X11. The sampling grid of the Zemax estimates has 32 points on each
    axis, the [k]-th at [-2 + k/8], the same on both axes; and every
    coordinate the field-of-view guard accepts lies between its first and
    its last point, so the interpolation never has to extrapolate. *)
Theorem sampling_grid_covers_fov :
  x_sampling = y_sampling /\
  length x_sampling = 32%nat /\
  (forall k v, x_sampling !! k = Some v ->
               (v == - (2) + inject_Z (Z.of_nat k) * (1 # 8))%Q) /\
  forall fp, (Qabs fp <= max_fov)%Q ->
    exists lo hi,
      head x_sampling = Some lo /\ last x_sampling = Some hi /\
      (lo <= fp <= hi)%Q.
Proof.
  split; [reflexivity|]. split; [reflexivity|]. split.
  - intros k v Hk.
    assert (Hlt : (k < 32)%nat).
    { apply lookup_lt_Some in Hk. exact Hk. }
    unfold x_sampling, arange in Hk. rewrite list_lookup_fmap in Hk.
    change (Z.to_nat (Qceiling ((fov.1.1.2 - fov.1.1.1)
                                / ((fov.1.1.2 - fov.1.1.1) / inject_Z n_samples))))
      with 32%nat in Hk.
    rewrite lookup_seq_lt in Hk by done. simpl in Hk. injection Hk as <-.
    unfold fov, n_samples. simpl fst. simpl snd. field.
  - intros fp Hfp. eexists _, _. split; [reflexivity|]. split; [reflexivity|].
    apply Qabs_Qle_condition in Hfp as [Hlo Hhi]. unfold max_fov in *.
    split.
    + eapply Qle_trans; [|exact Hlo]. vm_compute. discriminate.
    + eapply Qle_trans; [exact Hhi|]. vm_compute. discriminate.
Qed.

(** ** Cartesian and polar sampling coordinates *)

Lemma spine_points (cos sin deg2rad : Q -> Q) (arctan2 : Q -> Q -> Q)
    (sqrt : Q -> Q) (k : nat) :
  (k < 31)%nat ->
  exists x y r theta,
    (cartesian_coords cos sin deg2rad).1 !! k = Some x /\
    (cartesian_coords cos sin deg2rad).2 !! k = Some y /\
    (polar_coords deg2rad arctan2 sqrt).1 !! k = Some r /\
    (polar_coords deg2rad arctan2 sqrt).2 !! k = Some theta /\
    (x == r * cos theta)%Q /\ (y == r * sin theta)%Q.
Proof.
  intros Hk.
  do 31 (destruct k as [|k];
         [eexists _, _, _, _;
          split; [reflexivity|]; split; [reflexivity|];
          split; [reflexivity|]; split; [reflexivity|];
          split; ring|]).
  lia.
Qed.

(** X12. [cartesian_coords] and [polar_coords] each return 35 values per
    axis, and whatever the trigonometric functions are, they describe the
    same centre and spine points: for each of the first 31 points,
    [x = r * cos(theta)] and [y = r * sin(theta)] with the very [r] and
    [theta] of [polar_coords].  (The four corner points go through
    [arctan2] and [sqrt] and are not compared.) *)
Theorem polar_matches_cartesian (cos sin deg2rad : Q -> Q)
    (arctan2 : Q -> Q -> Q) (sqrt : Q -> Q) :
  length (cartesian_coords cos sin deg2rad).1 = 35%nat /\
  length (cartesian_coords cos sin deg2rad).2 = 35%nat /\
  length (polar_coords deg2rad arctan2 sqrt).1 = 35%nat /\
  length (polar_coords deg2rad arctan2 sqrt).2 = 35%nat /\
  forall k, (k < 31)%nat ->
    exists x y r theta,
      (cartesian_coords cos sin deg2rad).1 !! k = Some x /\
      (cartesian_coords cos sin deg2rad).2 !! k = Some y /\
      (polar_coords deg2rad arctan2 sqrt).1 !! k = Some r /\
      (polar_coords deg2rad arctan2 sqrt).2 !! k = Some theta /\
      (x == r * cos theta)%Q /\ (y == r * sin theta)%Q.
Proof.
  do 4 (split; [reflexivity|]). apply spine_points.
Qed.

(** ** The table of nominal coefficients *)

Lemma map_outcome_Done {A B : Type} (f : A -> outcome B) (g : A -> B)
    (xs : list A) :
  (forall x, x ∈ xs -> f x = Done (g x)) ->
  map_outcome f xs = Done (g <$> xs).
Proof.
  induction xs as [|x xs IH]; intros Hf; [done|].
  simpl. rewrite (Hf x) by apply list_elem_of_here. simpl.
  rewrite IH; [done|]. intros x' Hx'. apply Hf. by apply list_elem_of_further.
Qed.

Lemma coord_bound (r c : Q) :
  (0 <= r)%Q -> (r <= max_fov)%Q -> (Qabs c <= 1)%Q ->
  (Qabs (r * c) <= max_fov)%Q.
Proof.
  intros Hr0 Hr Hc. rewrite Qabs_Qmult, (Qabs_pos r) by done.
  pose proof (Qabs_nonneg c) as Hc0.
  set (u := Qabs c) in *. nra.
Qed.

Lemma const_bound (c : Q) :
  Qle_bool (Qabs c) max_fov = true -> (Qabs c <= max_fov)%Q.
Proof. apply Qle_bool_iff. Qed.

Ltac coord_in_fov Hc :=
  first
    [ apply coord_bound;
      [ apply Qle_bool_iff; reflexivity
      | apply Qle_bool_iff; reflexivity
      | apply Hc ]
    | apply const_bound; reflexivity ].

Section Table.
Variables cos sin deg2rad : Q -> Q.
Variable interp2d : list Q -> list Q -> list (list Q) -> interp_kind -> Q -> Q -> Q.
Hypothesis cos_le_1 : forall a, (Qabs (cos a) <= 1)%Q.
Hypothesis sin_le_1 : forall a, (Qabs (sin a) <= 1)%Q.

Lemma cartesian_x_in_fov :
  Forall (fun x => (Qabs x <= max_fov)%Q) (cartesian_coords cos sin deg2rad).1.
Proof using cos_le_1.
  unfold cartesian_coords. simpl.
  repeat (first [apply Forall_nil_2 | apply Forall_cons_2; [coord_in_fov cos_le_1|]]).
Qed.

Lemma cartesian_y_in_fov :
  Forall (fun y => (Qabs y <= max_fov)%Q) (cartesian_coords cos sin deg2rad).2.
Proof using sin_le_1.
  unfold cartesian_coords. simpl.
  repeat (first [apply Forall_nil_2 | apply Forall_cons_2; [coord_in_fov sin_le_1|]]).
Qed.

(** The row of the table for one sampling point. *)
Lemma gen_row (zemax_est : list (list (list Q))) (i : nat) (x y : Q) :
  (shape3 zemax_est).2 = 22%nat ->
  (cartesian_coords cos sin deg2rad).1 !! i = Some x ->
  (cartesian_coords cos sin deg2rad).2 !! i = Some y ->
  (x ← getitem (cartesian_coords cos sin deg2rad).1 i;
   y ← getitem (cartesian_coords cos sin deg2rad).2 i;
   row ← _interp_nominal_coeff interp2d zemax_est x y;
   assign_row row)
  = Done (drop 3 ((fun p => interp2d x_sampling y_sampling (plane zemax_est p)
                                    Linear x y) <$> seq 0 22)).
Proof using cos_le_1 sin_le_1.
  intros H22 Hx Hy. unfold getitem. rewrite Hx, Hy. simpl.
  pose proof (Forall_lookup_1 _ _ _ _ cartesian_x_in_fov Hx) as Bx.
  pose proof (Forall_lookup_1 _ _ _ _ cartesian_y_in_fov Hy) as By.
  simpl in Bx, By.
  apply Qle_bool_iff in Bx, By.
  unfold _interp_nominal_coeff. rewrite Bx, By. cbn [negb orb].
  cbv zeta. rewrite H22. simpl.
  unfold assign_row. rewrite decide_True; [done|]. reflexivity.
Qed.
End Table.

(** X13. With cosines and sines of modulus at most one, and a table of
    Zemax estimates of shape (32, 32, 22), [_gen_nominal_coeff] raises
    nothing: all 35 sampling points pass the field-of-view guard, and the
    table written out has 19 rows of 35 entries, the entry in row [k] and
    column [i] being the linear interpolation of plane [k + 3] of the
    estimates at the [i]-th point of [cartesian_coords]. *)
Theorem gen_nominal_coeff_table (cos sin deg2rad : Q -> Q)
    (interp2d : list Q -> list Q -> list (list Q) -> interp_kind -> Q -> Q -> Q)
    (zemax_est : list (list (list Q))) :
  (forall a, (Qabs (cos a) <= 1)%Q) ->
  (forall a, (Qabs (sin a) <= 1)%Q) ->
  shape3 zemax_est = (32, 32, 22)%nat ->
  exists table,
    _gen_nominal_coeff cos sin deg2rad interp2d zemax_est = Done table /\
    length table = 19%nat /\
    Forall (fun row => length row = 35%nat) table /\
    forall k i x y,
      (k < 19)%nat ->
      (cartesian_coords cos sin deg2rad).1 !! i = Some x ->
      (cartesian_coords cos sin deg2rad).2 !! i = Some y ->
      exists row,
        table !! k = Some row /\
        row !! i = Some (interp2d x_sampling y_sampling
                           (plane zemax_est (3 + k)) Linear x y).
Proof.
  intros Hcos Hsin Hshape.
  assert (H22 : (shape3 zemax_est).2 = 22%nat) by (by rewrite Hshape).
  set (xs := (cartesian_coords cos sin deg2rad).1).
  set (ys := (cartesian_coords cos sin deg2rad).2).
  set (g := fun i : nat =>
              drop 3 ((fun p => interp2d x_sampling y_sampling
                                  (plane zemax_est p) Linear
                                  (default 0%Q (xs !! i)) (default 0%Q (ys !! i)))
                        <$> seq 0 22)).
  assert (Hlen : length xs = 35%nat) by reflexivity.
  assert (Hlen' : length ys = 35%nat) by reflexivity.
  assert (Hrun : _gen_nominal_coeff cos sin deg2rad interp2d zemax_est
                 = Done (transpose 19 (g <$> seq 0 35))).
  { unfold _gen_nominal_coeff. rewrite decide_True by done.
    change (cartesian_coords cos sin deg2rad) with (xs, ys) at 1.
    cbv beta iota zeta. rewrite Hlen.
    rewrite (map_outcome_Done _ g); [done|].
    intros i Hi. apply elem_of_seq in Hi.
    destruct (lookup_lt_is_Some_2 xs i) as [x Hx]; [lia|].
    destruct (lookup_lt_is_Some_2 ys i) as [y Hy]; [lia|].
    unfold g. rewrite Hx, Hy. simpl default.
    by apply gen_row. }
  exists (transpose 19 (g <$> seq 0 35)). split; [exact Hrun|].
  split; [by unfold transpose; rewrite length_fmap, length_seq|].
  split.
  { unfold transpose. apply Forall_fmap, Forall_forall. intros k _. unfold compose.
    by rewrite !length_fmap, length_seq. }
  intros k i x y Hk Hx Hy.
  assert (Hi : (i < 35)%nat).
  { apply lookup_lt_Some in Hx. fold xs in Hx. lia. }
  eexists. split.
  { unfold transpose. rewrite list_lookup_fmap, lookup_seq_lt by done.
    reflexivity. }
  rewrite !list_lookup_fmap, lookup_seq_lt by done.
  cbn [fmap option_fmap option_map Nat.add]. f_equal.
  unfold g. fold xs in Hx. fold ys in Hy. rewrite Hx, Hy. cbn [default].
  rewrite (lookup_drop_map_seq _ 22 3 k) by lia. done.
Qed.

Lemma Qsquare_nonneg (a : Q) : (0 <= a * a)%Q.
Proof. destruct a as [n d]. unfold Qle, Qmult. simpl. nia. Qed.

Lemma toy_cos_le_1 (a : Q) : (Qabs (toy_cos a) <= 1)%Q.
Proof.
  unfold toy_cos. pose proof (Qsquare_nonneg a) as Ha.
  assert (H : (0 < 1 + a * a)%Q) by lra.
  apply Qabs_Qle_condition. split.
  - apply Qle_shift_div_l; [done|]. lra.
  - apply Qle_shift_div_r; [done|]. lra.
Qed.

Lemma toy_sin_le_1 (a : Q) : (Qabs (toy_sin a) <= 1)%Q.
Proof.
  unfold toy_sin. pose proof (Qsquare_nonneg a) as Ha.
  assert (H : (0 < 1 + a * a)%Q) by lra.
  pose proof (Qsquare_nonneg (1 + a)) as Hp.
  pose proof (Qsquare_nonneg (1 - a)) as Hm.
  apply Qabs_Qle_condition. split.
  - apply Qle_shift_div_l; [done|]. lra.
  - apply Qle_shift_div_r; [done|]. lra.
Qed.

Lemma gen_nominal_coeff_table_witness :
  (forall a, (Qabs (toy_cos a) <= 1)%Q) /\
  (forall a, (Qabs (toy_sin a) <= 1)%Q) /\
  shape3 toy_zemax = (32, 32, 22)%nat /\
  exists table,
    _gen_nominal_coeff toy_cos toy_sin toy_deg2rad toy_interp2d toy_zemax
    = Done table /\
    length table = 19%nat /\
    Forall (fun row => length row = 35%nat) table /\
    forall k i x y,
      (k < 19)%nat ->
      (cartesian_coords toy_cos toy_sin toy_deg2rad).1 !! i = Some x ->
      (cartesian_coords toy_cos toy_sin toy_deg2rad).2 !! i = Some y ->
      exists row,
        table !! k = Some row /\
        row !! i = Some (toy_interp2d x_sampling y_sampling
                           (plane toy_zemax (3 + k)) Linear x y).
Proof.
  split; [exact toy_cos_le_1|]. split; [exact toy_sin_le_1|].
  split; [reflexivity|].
  apply gen_nominal_coeff_table;
    [exact toy_cos_le_1 | exact toy_sin_le_1 | reflexivity].
Defined.

(** ** The class [OpticalZernikes] *)

Lemma shape_has_shape a n m :
  (0 < n)%nat -> has_shape a n m -> shape a = (n, m).
Proof.
  intros Hn [Hlen Hrows]. unfold shape. rewrite Hlen. f_equal.
  destruct a as [|row a]; [simpl in Hlen; lia|]. simpl.
  by apply Forall_cons in Hrows as [-> _].
Qed.

Lemma shape3_has_shape3 a n m p :
  (0 < n)%nat -> (0 < m)%nat -> has_shape3 a n m p -> shape3 a = (n, m, p).
Proof.
  intros Hn Hm [Hlen Hrows]. unfold shape3. rewrite Hlen.
  destruct a as [|row a]; [simpl in Hlen; lia|]. simpl.
  apply Forall_cons in Hrows as [[Hrow Hcells] _]. rewrite Hrow.
  destruct row as [|cell row]; [simpl in Hrow; lia|]. simpl.
  by apply Forall_cons in Hcells as [-> _].
Qed.

Lemma at2_has_shape a n m i j :
  has_shape a n m -> (i < n)%nat -> (j < m)%nat ->
  exists row v, a !! i = Some row /\ row !! j = Some v /\ at2 a i j = Some v.
Proof.
  intros [Hlen Hrows] Hi Hj.
  destruct (lookup_lt_is_Some_2 a i) as [row Hrow]; [lia|].
  pose proof (Forall_lookup_1 _ _ _ _ Hrows Hrow) as Hm. simpl in Hm.
  destruct (lookup_lt_is_Some_2 row j) as [v Hv]; [lia|].
  exists row, v. unfold at2. rewrite Hrow. simpl. by rewrite Hv.
Qed.

Lemma transpose_has_shape m n c :
  has_shape m n c -> has_shape (transpose c m) c n.
Proof.
  intros [Hlen _]. unfold transpose. split.
  - by rewrite length_fmap, length_seq.
  - apply Forall_fmap, Forall_forall. intros k _. unfold compose.
    by rewrite length_fmap.
Qed.

Lemma at2_transpose m n c k i :
  has_shape m n c -> (k < c)%nat -> (i < n)%nat ->
  at2 (transpose c m) k i = at2 m i k.
Proof.
  intros Hm Hk Hi.
  destruct (at2_has_shape m n c i k Hm Hi Hk) as (row & v & Hrow & Hv & ->).
  unfold at2, transpose.
  rewrite list_lookup_fmap, lookup_seq_lt by done. simpl.
  rewrite list_lookup_fmap, Hrow. simpl. by rewrite Hv.
Qed.

Lemma bidx_lt n i : (i < n)%nat -> bidx n i = i.
Proof. intros Hi. unfold bidx. case_decide; lia. Qed.

Lemma broadcast_dim_same n : broadcast_dim n n = Some n.
Proof. unfold broadcast_dim. by rewrite decide_True. Qed.

(** Adding two arrays of the same shape adds them entry by entry. *)
Lemma np_add_same_shape a b n m :
  (0 < n)%nat -> has_shape a n m -> has_shape b n m ->
  exists c,
    np_add a b = Done c /\ has_shape c n m /\
    forall i j, (i < n)%nat -> (j < m)%nat ->
      at2 c i j = Some (default 0 (at2 a i j) + default 0 (at2 b i j))%Q.
Proof.
  intros Hn Ha Hb. unfold np_add.
  rewrite (shape_has_shape a n m Hn Ha), (shape_has_shape b n m Hn Hb).
  cbn [fst snd]. rewrite !broadcast_dim_same.
  eexists. split; [reflexivity|]. split.
  - split; [by rewrite length_fmap, length_seq|].
    apply Forall_fmap, Forall_forall. intros i _. unfold compose.
    by rewrite length_fmap, length_seq.
  - intros i j Hi Hj. unfold at2 at 1.
    rewrite list_lookup_fmap, lookup_seq_lt by done. simpl.
    rewrite list_lookup_fmap, lookup_seq_lt by done. simpl.
    by rewrite !bidx_lt.
Qed.

(** The product with the deviations, one value per sampling point and
    coefficient. *)
Lemma dot_has_shape a b n m :
  (0 < n)%nat -> (0 < m)%nat -> has_shape3 a n m (length b) ->
  exists c,
    dot a b = Done c /\ has_shape c n m /\
    forall i k, (i < n)%nat -> (k < m)%nat ->
      exists row cell,
        a !! i = Some row /\ row !! k = Some cell /\
        at2 c i k = Some (dot1 cell b).
Proof.
  intros Hn Hm Ha. unfold dot.
  rewrite (shape3_has_shape3 a n m (length b) Hn Hm Ha). cbn [snd].
  rewrite decide_True by done. destruct Ha as [Hlen Hrows].
  eexists. split; [reflexivity|]. split.
  - split; [by rewrite length_fmap|].
    apply Forall_fmap. eapply Forall_impl; [exact Hrows|].
    intros row [Hrow _]. unfold compose. by rewrite length_fmap.
  - intros i k Hi Hk.
    destruct (lookup_lt_is_Some_2 a i) as [row Hrow]; [lia|].
    pose proof (Forall_lookup_1 _ _ _ _ Hrows Hrow) as [Hlr _].
    destruct (lookup_lt_is_Some_2 row k) as [cell Hcell]; [lia|].
    exists row, cell. split; [done|]. split; [done|].
    unfold at2. rewrite list_lookup_fmap, Hrow. simpl.
    by rewrite list_lookup_fmap, Hcell.
Qed.

Lemma dot_mismatch a b n m p :
  (0 < n)%nat -> (0 < m)%nat -> has_shape3 a n m p -> length b <> p ->
  dot a b = Fail (PyValueError "shapes not aligned").
Proof.
  intros Hn Hm Ha Hb. unfold dot.
  rewrite (shape3_has_shape3 a n m p Hn Hm Ha). cbn [snd].
  by rewrite decide_False.
Qed.

Lemma dot1_zero (u v : list Q) :
  Forall (fun d => (d == 0)%Q) v -> (dot1 u v == 0)%Q.
Proof.
  intros Hv. revert u. induction Hv as [|d v Hd Hv IH]; intros u.
  - destruct u; reflexivity.
  - destruct u as [|c u]; [reflexivity|].
    unfold dot1 in *. simpl. rewrite IH, Hd. ring.
Qed.

Section Instance.
Variables cos sin deg2rad : Q -> Q.
Variable sensitivity : list (list (list Q)).
Variable nominal_coeff : list (list Q).
Variable mock_deviations : outcome (list Q).
Variable fit : list Q -> list Q -> list Q -> Q -> Q -> Q.
Variables n_points n_coeff : nat.
Hypothesis points_pos : (0 < n_points)%nat.
Hypothesis coeff_pos : (0 < n_coeff)%nat.

(** What the constructor computes from deviations of the right length. *)
Lemma init_run (d : list Q) :
  has_shape3 sensitivity n_points n_coeff (length d) ->
  has_shape nominal_coeff n_coeff n_points ->
  exists self,
    __init__ cos sin deg2rad sensitivity nominal_coeff mock_deviations fit
             (Some d) = Done self /\
    deviations self = d /\
    _polar_coords self = None /\
    _fit_functions self
    = _optimize_fits cos sin deg2rad fit (sampling_coeff self) /\
    has_shape (sampling_coeff self) n_coeff n_points /\
    forall k i, (k < n_coeff)%nat -> (i < n_points)%nat ->
      exists row cell nominal,
        sensitivity !! i = Some row /\ row !! k = Some cell /\
        at2 nominal_coeff k i = Some nominal /\
        at2 (sampling_coeff self) k i = Some (dot1 cell d + nominal)%Q.
Proof using points_pos coeff_pos.
  intros Hs Hn. unfold __init__. cbn [mbind outcome_bind].
  destruct (dot_has_shape sensitivity d n_points n_coeff points_pos coeff_pos Hs)
    as (product & -> & Hp & Hprod).
  cbn [mbind outcome_bind].
  rewrite (shape_has_shape product n_points n_coeff points_pos Hp).
  cbn [snd].
  pose proof (transpose_has_shape product n_points n_coeff Hp) as Ht.
  destruct (np_add_same_shape (transpose n_coeff product) nominal_coeff
              n_coeff n_points coeff_pos Ht Hn) as (sc & -> & Hsc & Hadd).
  cbn [mbind outcome_bind]. eexists. split; [reflexivity|]. simpl.
  do 3 (split; [reflexivity|]). split; [exact Hsc|].
  intros k i Hk Hi.
  destruct (Hprod i k Hi Hk) as (row & cell & Hrow & Hcell & Hv).
  destruct (at2_has_shape nominal_coeff n_coeff n_points k i Hn Hk Hi)
    as (nrow & nominal & _ & _ & Hnom).
  exists row, cell, nominal. do 3 (split; [done|]).
  rewrite (Hadd k i Hk Hi).
  rewrite (at2_transpose product n_points n_coeff k i Hp Hk Hi), Hv, Hnom.
  done.
Qed.
End Instance.

Lemma toy_sensitivity_shape : has_shape3 toy_sensitivity 35 19 50.
Proof.
  split; [reflexivity|]. apply Forall_replicate.
  split; [reflexivity|]. by apply Forall_replicate.
Qed.

Lemma toy_nominal_shape : has_shape toy_nominal 19 35.
Proof.
  split; [reflexivity|]. apply Forall_fmap, Forall_forall. intros k _.
  unfold compose. by rewrite length_replicate.
Qed.

(** X14. Constructing [OpticalZernikes] from a one-dimensional array of
    deviations, with a sensitivity of shape (35, 19, 50) and nominal
    coefficients of shape (19, 35): an array of 50 deviations gives an
    instance whose [sampling_coeff] has shape (19, 35), its entry for
    coefficient [k] and sampling point [i] being the nominal one plus the sum
    over the 50 degrees of freedom of [sensitivity[i][k][j] * deviations[j]]
    (the product is transposed before it is added); one function is fitted
    per coefficient, to that row of [sampling_coeff] at the points of
    [cartesian_coords], so [cartesian_coeff] returns 19 values.  An array of
    any other length raises [ValueError] in [np.dot]. *)
Theorem optical_zernikes_init (cos sin deg2rad : Q -> Q)
    (sensitivity : list (list (list Q))) (nominal_coeff : list (list Q))
    (mock_deviations : outcome (list Q))
    (fit : list Q -> list Q -> list Q -> Q -> Q -> Q) (d : list Q) :
  has_shape3 sensitivity 35 19 50 ->
  has_shape nominal_coeff 19 35 ->
  (length d = 50%nat ->
   exists self,
     __init__ cos sin deg2rad sensitivity nominal_coeff mock_deviations fit
              (Some d) = Done self /\
     deviations self = d /\
     has_shape (sampling_coeff self) 19 35 /\
     (forall k i, (k < 19)%nat -> (i < 35)%nat ->
        exists row cell nominal,
          sensitivity !! i = Some row /\ row !! k = Some cell /\
          at2 nominal_coeff k i = Some nominal /\
          at2 (sampling_coeff self) k i = Some (dot1 cell d + nominal)%Q) /\
     forall fp_x fp_y,
       length (cartesian_coeff self fp_x fp_y) = 19%nat /\
       forall k row, sampling_coeff self !! k = Some row ->
         cartesian_coeff self fp_x fp_y !! k
         = Some (fit (cartesian_coords cos sin deg2rad).1
                     (cartesian_coords cos sin deg2rad).2 row fp_x fp_y)) /\
  (length d <> 50%nat ->
   __init__ cos sin deg2rad sensitivity nominal_coeff mock_deviations fit
            (Some d) = Fail (PyValueError "shapes not aligned")).
Proof.
  intros Hs Hn. split.
  - intros Hd. rewrite <- Hd in Hs.
    destruct (init_run cos sin deg2rad sensitivity nominal_coeff
                mock_deviations fit 35 19 ltac:(lia) ltac:(lia) d Hs Hn)
      as (self & Hrun & Hdev & _ & Hfit & Hsc & Hentries).
    exists self. do 3 (split; [done|]). split; [exact Hentries|].
    intros fp_x fp_y. unfold cartesian_coeff. rewrite Hfit.
    unfold _optimize_fits.
    destruct (cartesian_coords cos sin deg2rad) as [xs ys] eqn:Hc.
    cbn [fst snd]. split.
    + rewrite !length_fmap. by destruct Hsc.
    + intros k row Hrow. rewrite !list_lookup_fmap, Hrow. done.
  - intros Hd. unfold __init__. cbn [mbind outcome_bind].
    by rewrite (dot_mismatch sensitivity d 35 19 50 ltac:(lia) ltac:(lia) Hs Hd).
Qed.

Lemma optical_zernikes_init_witness :
  has_shape3 toy_sensitivity 35 19 50 /\
  has_shape toy_nominal 19 35 /\
  (length toy_deviations = 50%nat ->
   exists self,
     __init__ toy_cos toy_sin toy_deg2rad toy_sensitivity toy_nominal
              (Fail PyAssertionError) toy_fit (Some toy_deviations)
     = Done self /\
     deviations self = toy_deviations /\
     has_shape (sampling_coeff self) 19 35 /\
     (forall k i, (k < 19)%nat -> (i < 35)%nat ->
        exists row cell nominal,
          toy_sensitivity !! i = Some row /\ row !! k = Some cell /\
          at2 toy_nominal k i = Some nominal /\
          at2 (sampling_coeff self) k i
          = Some (dot1 cell toy_deviations + nominal)%Q) /\
     forall fp_x fp_y,
       length (cartesian_coeff self fp_x fp_y) = 19%nat /\
       forall k row, sampling_coeff self !! k = Some row ->
         cartesian_coeff self fp_x fp_y !! k
         = Some (toy_fit (cartesian_coords toy_cos toy_sin toy_deg2rad).1
                         (cartesian_coords toy_cos toy_sin toy_deg2rad).2
                         row fp_x fp_y)) /\
  (length toy_deviations <> 50%nat ->
   __init__ toy_cos toy_sin toy_deg2rad toy_sensitivity toy_nominal
            (Fail PyAssertionError) toy_fit (Some toy_deviations)
   = Fail (PyValueError "shapes not aligned")).
Proof.
  split; [exact toy_sensitivity_shape|]. split; [exact toy_nominal_shape|].
  apply optical_zernikes_init;
    [exact toy_sensitivity_shape | exact toy_nominal_shape].
Defined.

(** X15. An instance constructed from 50 deviations that are all zero is
    the nominal state: every entry of its [sampling_coeff] equals the entry
    of [nominal_coeff] at the same place, whatever the sensitivity is. *)
Theorem zero_deviations_nominal (cos sin deg2rad : Q -> Q)
    (sensitivity : list (list (list Q))) (nominal_coeff : list (list Q))
    (mock_deviations : outcome (list Q))
    (fit : list Q -> list Q -> list Q -> Q -> Q -> Q) (d : list Q) :
  has_shape3 sensitivity 35 19 50 ->
  has_shape nominal_coeff 19 35 ->
  length d = 50%nat ->
  Forall (fun v => (v == 0)%Q) d ->
  exists self,
    __init__ cos sin deg2rad sensitivity nominal_coeff mock_deviations fit
             (Some d) = Done self /\
    forall k i, (k < 19)%nat -> (i < 35)%nat ->
      exists v nominal,
        at2 (sampling_coeff self) k i = Some v /\
        at2 nominal_coeff k i = Some nominal /\
        (v == nominal)%Q.
Proof.
  intros Hs Hn Hd Hzero. rewrite <- Hd in Hs.
  destruct (init_run cos sin deg2rad sensitivity nominal_coeff
              mock_deviations fit 35 19 ltac:(lia) ltac:(lia) d Hs Hn)
    as (self & Hrun & _ & _ & _ & _ & Hentries).
  exists self. split; [exact Hrun|]. intros k i Hk Hi.
  destruct (Hentries k i Hk Hi) as (row & cell & nominal & _ & _ & Hnom & Hv).
  exists (dot1 cell d + nominal)%Q, nominal. do 2 (split; [done|]).
  rewrite (dot1_zero cell d Hzero). ring.
Qed.

Lemma zero_deviations_nominal_witness :
  has_shape3 toy_sensitivity 35 19 50 /\
  has_shape toy_nominal 19 35 /\
  length (replicate 50 0%Q) = 50%nat /\
  Forall (fun v => (v == 0)%Q) (replicate 50 0%Q) /\
  exists self,
    __init__ toy_cos toy_sin toy_deg2rad toy_sensitivity toy_nominal
             (Fail PyAssertionError) toy_fit (Some (replicate 50 0%Q))
    = Done self /\
    forall k i, (k < 19)%nat -> (i < 35)%nat ->
      exists v nominal,
        at2 (sampling_coeff self) k i = Some v /\
        at2 toy_nominal k i = Some nominal /\
        (v == nominal)%Q.
Proof.
  split; [exact toy_sensitivity_shape|]. split; [exact toy_nominal_shape|].
  split; [reflexivity|].
  split; [apply Forall_replicate; reflexivity|].
  apply zero_deviations_nominal;
    [ exact toy_sensitivity_shape | exact toy_nominal_shape | reflexivity
    | apply Forall_replicate; reflexivity ].
Defined.

(** X16. The two query methods agree on the tabulated sampling points: for
    the centre and each of the 30 spine points, [polar_coeff] at the
    [polar_coords] of the point returns the values [cartesian_coeff] returns
    at its [cartesian_coords], for every instance whose fitted functions
    give equal values at equal points. *)
Theorem polar_coeff_at_samples (cos sin deg2rad : Q -> Q)
    (arctan2 : Q -> Q -> Q) (sqrt : Q -> Q) (self : OpticalZernikes)
    (k : nat) :
  Forall respects_Qeq (_fit_functions self) ->
  (k < 31)%nat ->
  exists x y r theta,
    (cartesian_coords cos sin deg2rad).1 !! k = Some x /\
    (cartesian_coords cos sin deg2rad).2 !! k = Some y /\
    (polar_coords deg2rad arctan2 sqrt).1 !! k = Some r /\
    (polar_coords deg2rad arctan2 sqrt).2 !! k = Some theta /\
    Forall2 Qeq (polar_coeff cos sin self r theta) (cartesian_coeff self x y).
Proof.
  intros Hfit Hk.
  destruct (spine_points cos sin deg2rad arctan2 sqrt k Hk)
    as (x & y & r & theta & Hx & Hy & Hr & Ht & Ex & Ey).
  exists x, y, r, theta. do 4 (split; [done|]).
  unfold polar_coeff, cartesian_coeff. apply Forall2_fmap.
  apply Forall_Forall2_diag. eapply Forall_impl; [exact Hfit|].
  intros f Hf. apply Hf; by symmetry.
Qed.

Lemma polar_coeff_at_samples_witness :
  Forall respects_Qeq (_fit_functions toy_instance) /\
  (7 < 31)%nat /\
  exists x y r theta,
    (cartesian_coords toy_cos toy_sin toy_deg2rad).1 !! 7%nat = Some x /\
    (cartesian_coords toy_cos toy_sin toy_deg2rad).2 !! 7%nat = Some y /\
    (polar_coords toy_deg2rad (fun y x => y / x)%Q (fun v => v)).1 !! 7%nat
    = Some r /\
    (polar_coords toy_deg2rad (fun y x => y / x)%Q (fun v => v)).2 !! 7%nat
    = Some theta /\
    Forall2 Qeq (polar_coeff toy_cos toy_sin toy_instance r theta)
                (cartesian_coeff toy_instance x y).
Proof.
  assert (H : Forall respects_Qeq (_fit_functions toy_instance)).
  { repeat apply Forall_cons_2; [| |apply Forall_nil_2];
      intros x x' y y' Hx Hy; by rewrite Hx, Hy. }
  split; [exact H|]. split; [lia|].
  apply polar_coeff_at_samples; [exact H | lia].
Defined.
